(** * TD_SHT31: an I2C driver for the Sensirion SHT31 sensor

    A shallow embedding of [TD_SHT31.h] / [TD_SHT31.cpp] and the
    properties of its protocol engine: the CRC-8 checksum, the command
    writer and the byte reader, the single-shot measurement, the status
    register access, the conversion formulas and the error accumulator.

    Conventions.
    - [uint8_t], [uint16_t] and [int] values are integers of [Z]; every
      narrowing assignment of the source is written out as a [mod].
    - [float] and [double] values are IEEE 754 binary floating-point
      numbers of [SpecFloat] (round to nearest, ties to even); the value
      of one is a real number.
    - The [TwoWire] bus object is an interface (a type class); the driver
      is a state transformer over a world made of the driver object, the
      bus, the trace of the calls made on the bus and on [delay], and the
      caller's [float] variables. *)

From Stdlib Require Import ZArith List Bool Lia.
From Stdlib Require Import Floats.SpecFloat.
From Stdlib Require Import Reals Lra.
Import ListNotations.

Local Open Scope Z_scope.

(* ================================================================== *)
(** * Constants of [TD_SHT31.h] *)
(* ================================================================== *)

(** Single shot commands, clock stretching disabled. *)
Definition CMD_SS_CSD_HIGH   : Z := 0x2400.
Definition CMD_SS_CSD_MEDIUM : Z := 0x240B.
Definition CMD_SS_CSD_LOW    : Z := 0x2416.

(** Soft reset and general call reset. *)
Definition CMD_SOFT_RESET  : Z := 0x30A2.
Definition CMD_GCALL_RESET : Z := 0x0006.

(** Status register. *)
Definition CMD_READ_STATUS  : Z := 0xF32D.
Definition CMD_CLEAR_STATUS : Z := 0x3041.

(** Arguments of [set_defaults]. *)
Definition ENABLE_CRC  : bool := true.
Definition DISABLE_CRC : bool := false.
Definition CELSIUS     : bool := true.
Definition FARENHEIT   : bool := false.

(** Error codes and error masks, as the header writes them in binary. *)
Definition NO_ERROR               : Z := 0.
Definition ERROR_TRANSMISSION_LEN : Z := 1.    (* 0b0000000000000001 *)
Definition ERROR_END_TRANSMISSION : Z := 2.    (* 0b0000000000000010 *)
Definition ERROR_REQUEST_LEN      : Z := 4.    (* 0b0000000000000100 *)
Definition ERROR_WRITE_LEN        : Z := 8.    (* 0b0000000000001000 *)
Definition ERROR_WRONG_SENSOR_ID  : Z := 16.   (* 0b0000000000010000 *)
Definition ERROR_FM_TIMEOUT       : Z := 32.   (* 0b0000000000100000 *)
Definition ERROR_NOT_CONNECTED    : Z := 64.   (* 0b0000000001000000 *)
Definition ERROR_CRC_CHECK        : Z := 128.  (* 0b0000000010000000 *)
Definition ERROR_WRONG_COMMAND    : Z := 257.  (* 0b0000000100000001 *)

(** The eight faults the error taxonomy names: write length, end of
    transmission, request length, wrong command, CRC check, not
    connected, wrong sensor id and timeout. *)
Definition fault_flags : list Z :=
  [ ERROR_WRITE_LEN; ERROR_END_TRANSMISSION; ERROR_REQUEST_LEN;
    ERROR_WRONG_COMMAND; ERROR_CRC_CHECK; ERROR_NOT_CONNECTED;
    ERROR_WRONG_SENSOR_ID; ERROR_FM_TIMEOUT ].

(** [record] on a bare accumulator: [_error_code |= flag]. *)
Definition accumulate (acc : Z) (faults : list Z) : Z :=
  fold_left Z.lor faults acc.

(* ================================================================== *)
(** * Integer conversions of the C code *)
(* ================================================================== *)

Definition to_uint8  (z : Z) : Z := z mod 256.
Definition to_uint16 (z : Z) : Z := z mod 65536.

(** Conversion of an integer to [bool]: anything but zero is [true]. *)
Definition bool_of_int (z : Z) : bool := negb (z =? 0).

Definition is_byte (b : Z) : Prop := 0 <= b < 256.

(* ================================================================== *)
(** * The checksum, [TD_SHT31::crc8] *)
(* ================================================================== *)

Module CRC.

Definition POLY : Z := 0x31.

(** One turn of the inner loop:
    [crc = (crc & 0x80) ? (crc << 1) ^ POLY : (crc << 1);]
    the right-hand side is an [int], the assignment narrows it to
    [uint8_t]. *)
Definition crc8_shift (crc : Z) : Z :=
  to_uint8 (if negb (Z.land crc 0x80 =? 0)
            then Z.lxor (Z.shiftl crc 1) POLY
            else Z.shiftl crc 1).

(** [for (uint8_t i = 8; i; --i) ...] *)
Fixpoint crc8_bits (i : nat) (crc : Z) : Z :=
  match i with
  | O => crc
  | S i' => crc8_bits i' (crc8_shift crc)
  end.

(** [for (uint8_t j = len; j; --j) { crc ^= *data++; ... }]; [data] is
    the memory from the pointer on.  Reading past its end is undefined
    in C and reads 0 here; no caller does it. *)
Fixpoint crc8_bytes (j : nat) (data : list Z) (crc : Z) : Z :=
  match j with
  | O => crc
  | S j' =>
      let crc := to_uint8 (Z.lxor crc (hd 0 data)) in
      crc8_bytes j' (tl data) (crc8_bits 8 crc)
  end.

(** [uint8_t crc8(const uint8_t *data, uint8_t len)] *)
Definition crc8 (data : list Z) (len : Z) : Z :=
  crc8_bytes (Z.to_nat (to_uint8 len)) data 0xFF.

(** ** The checksum as the specification words it

    Initial value 0xFF; for each input byte: XOR it into the running
    value, then for each of 8 bit positions, if the top bit is set,
    shift left and XOR with the polynomial 0x31, else shift left. *)
Definition spec_bit (crc : Z) : Z :=
  if Z.testbit crc 7
  then Z.lxor (Z.shiftl crc 1 mod 256) 0x31
  else Z.shiftl crc 1 mod 256.

Definition spec_byte (crc b : Z) : Z :=
  Nat.iter 8 spec_bit (Z.lxor crc b).

Definition crc8_spec (data : list Z) : Z :=
  fold_left spec_byte data 0xFF.

(** ** The checksum as a polynomial division over GF(2)

    A polynomial is the integer whose bit [i] is the coefficient of
    [x^i]; addition is [Z.lxor], multiplication by [x^k] is
    [Z.shiftl _ k].  The generator is [x^8 + x^5 + x^4 + 1]. *)
Definition GENERATOR : Z := 0x131.

(** No coefficient from [x^n] up: the degree is under [n]. *)
Definition below (n x : Z) : Prop :=
  forall i, n <= i -> Z.testbit x i = false.

(** Long division: [poly_mod k a] cancels the coefficients of
    [x^(k+7)], ..., [x^8] of [a], the highest first. *)
Fixpoint poly_mod (k : nat) (a : Z) : Z :=
  match k with
  | O => a
  | S k' =>
      let p := Z.of_nat k' in
      poly_mod k' (if Z.testbit a (p + 8)
                   then Z.lxor a (Z.shiftl GENERATOR p)
                   else a)
  end.

(** The message, most significant bit first: the first byte holds the
    highest coefficients. *)
Fixpoint message_poly (data : list Z) : Z :=
  match data with
  | [] => 0
  | b :: rest =>
      Z.lxor (Z.shiftl b (8 * Z.of_nat (length rest))) (message_poly rest)
  end.

(** Initial value 0xFF in the register, message times [x^8], no
    reflection, no final XOR: the remainder of
    [0xFF * x^(8n) + M(x) * x^8] by the generator. *)
Definition crc8_division (data : list Z) : Z :=
  let n := length data in
  poly_mod (8 * n)
    (Z.lxor (Z.shiftl 0xFF (8 * Z.of_nat n))
            (Z.shiftl (message_poly data) 8)).

End CRC.

(* ================================================================== *)
(** * Floating-point numbers *)
(* ================================================================== *)

Module FP.

(** A binary format: the precision (bits of the significand, the
    implicit one included) and the exponent of the infinities. *)
Record format : Type := { prec : Z; emax : Z }.

Definition binary32 : format := {| prec := 24; emax := 128 |}.
Definition binary64 : format := {| prec := 53; emax := 1024 |}.

(** Conversion of an integer to the format. *)
Definition of_int (f : format) (n : Z) : spec_float :=
  binary_normalize (prec f) (emax f) n 0 false.

Definition mul (f : format) : spec_float -> spec_float -> spec_float :=
  SFmul (prec f) (emax f).
Definition sub (f : format) : spec_float -> spec_float -> spec_float :=
  SFsub (prec f) (emax f).
Definition div (f : format) : spec_float -> spec_float -> spec_float :=
  SFdiv (prec f) (emax f).

(** Conversion of a number of another format: the value is rounded
    to the format [f]. *)
Definition convert (f : format) (x : spec_float) : spec_float :=
  match x with
  | S754_finite s m e => binary_round (prec f) (emax f) s m e
  | _ => x
  end.

End FP.

(* ================================================================== *)
(** * The bus collaborator, [TwoWire] *)
(* ================================================================== *)

Module Wire.

(** The methods of [TwoWire] the driver calls, on a bus of state [B].
    Each returns what the Arduino core returns, and the next state. *)
Class TwoWire (B : Type) : Type := {
  begin : B -> B;
  setClock : Z -> B -> B;
  beginTransmission : Z -> B -> B;
  write : list Z -> B -> Z * B;
  endTransmission : B -> Z * B;
  requestFrom : Z -> Z -> B -> Z * B;
  read : B -> Z * B
}.

End Wire.

(** The calls the driver makes on its environment, in order. *)
Inductive Event : Type :=
| EvBegin
| EvSetClock (hz : Z)
| EvBeginTransmission (address : Z)
| EvWrite (bytes : list Z)
| EvEndTransmission
| EvRequestFrom (address quantity : Z)
| EvRead
| EvDelay (ms : Z).

(** Milliseconds spent in [delay] along a trace. *)
Fixpoint delayed (tr : list Event) : Z :=
  match tr with
  | [] => 0
  | EvDelay ms :: tr' => ms + delayed tr'
  | _ :: tr' => delayed tr'
  end.

(* ================================================================== *)
(** * The driver object and its world *)
(* ================================================================== *)

(** The private members of [class TD_SHT31] ([_i2c] is the bus of the
    world; [_sdaPIN] and [_slcPIN] are never used). *)
Record TD_SHT31 : Type := {
  _i2c_device_address : Z;
  _error_code : Z;
  _humidity : spec_float;
  _temperature : spec_float;
  _useCRC : bool;
  _tUnit : bool
}.

(** Addresses of the caller's [float] variables. *)
Definition pointer : Type := nat.

Definition store {A : Type} (m : pointer -> A) (p : pointer) (v : A)
  : pointer -> A :=
  fun q => if Nat.eqb q p then v else m q.

Record World (B : Type) : Type := {
  self : TD_SHT31;
  wire : B;
  trace : list Event;
  heap : pointer -> spec_float
}.

Arguments self {B} _.
Arguments wire {B} _.
Arguments trace {B} _.
Arguments heap {B} _.

(** [buffer[i] = v]; out of the buffer the C code is undefined and the
    model leaves the buffer alone (no caller does it). *)
Fixpoint poke (buffer : list Z) (i : nat) (v : Z) : list Z :=
  match buffer, i with
  | [], _ => []
  | _ :: rest, O => v :: rest
  | b :: rest, S i' => b :: poke rest i' v
  end.

(** [buffer[i]] *)
Definition peek (buffer : list Z) (i : nat) : Z := nth i buffer 0.

Section Driver.

Context {B : Type} {TW : Wire.TwoWire B}.

(** The format of [double]: binary64 on the 32-bit cores, binary32 on
    AVR, where [double] is [float]. *)
Variable dbl : FP.format.

(** ** State transformers *)

Definition M (A : Type) : Type := World B -> A * World B.

Definition ret {A : Type} (a : A) : M A := fun w => (a, w).

Definition bind {A C : Type} (m : M A) (k : A -> M C) : M C :=
  fun w => let (a, w') := m w in k a w'.

Notation "x <- m ;; k" := (bind m (fun x => k))
  (at level 61, m at next level, right associativity).
Notation "m ;; k" := (bind m (fun _ => k))
  (at level 61, right associativity).

Definition when (c : bool) (m : M unit) : M unit :=
  if c then m else ret tt.

(** ** Accessors *)

Definition with_self (f : TD_SHT31 -> TD_SHT31) : M unit :=
  fun w => (tt, {| self := f (self w); wire := wire w;
                   trace := trace w; heap := heap w |}).

Definition member {A : Type} (f : TD_SHT31 -> A) : M A :=
  fun w => (f (self w), w).

Definition set_error_code (e : Z) (s : TD_SHT31) : TD_SHT31 :=
  {| _i2c_device_address := _i2c_device_address s; _error_code := e;
     _humidity := _humidity s; _temperature := _temperature s;
     _useCRC := _useCRC s; _tUnit := _tUnit s |}.

Definition set_temperature (t : spec_float) (s : TD_SHT31) : TD_SHT31 :=
  {| _i2c_device_address := _i2c_device_address s;
     _error_code := _error_code s;
     _humidity := _humidity s; _temperature := t;
     _useCRC := _useCRC s; _tUnit := _tUnit s |}.

Definition set_humidity (h : spec_float) (s : TD_SHT31) : TD_SHT31 :=
  {| _i2c_device_address := _i2c_device_address s;
     _error_code := _error_code s;
     _humidity := h; _temperature := _temperature s;
     _useCRC := _useCRC s; _tUnit := _tUnit s |}.

Definition set_modes (useCRC tUnit : bool) (s : TD_SHT31) : TD_SHT31 :=
  {| _i2c_device_address := _i2c_device_address s;
     _error_code := _error_code s;
     _humidity := _humidity s; _temperature := _temperature s;
     _useCRC := useCRC; _tUnit := tUnit |}.

(** [_error_code |= flag;] *)
Definition raise (flag : Z) : M unit :=
  with_self (fun s => set_error_code (Z.lor (_error_code s) flag) s).

(** [*p = v;] *)
Definition assign (p : pointer) (v : spec_float) : M unit :=
  fun w => (tt, {| self := self w; wire := wire w; trace := trace w;
                   heap := store (heap w) p v |}).

(** ** Calls on the environment, each logged in the trace *)

Definition call {A : Type} (e : Event) (f : B -> A * B) : M A :=
  fun w => let (a, b) := f (wire w) in
           (a, {| self := self w; wire := b;
                  trace := trace w ++ [e]; heap := heap w |}).

Definition i2c_begin : M unit :=
  call EvBegin (fun b => (tt, Wire.begin b)).
Definition i2c_setClock (hz : Z) : M unit :=
  call (EvSetClock hz) (fun b => (tt, Wire.setClock hz b)).
Definition i2c_beginTransmission (address : Z) : M unit :=
  call (EvBeginTransmission address)
       (fun b => (tt, Wire.beginTransmission address b)).
Definition i2c_write (bytes : list Z) : M Z :=
  call (EvWrite bytes) (Wire.write bytes).
Definition i2c_endTransmission : M Z :=
  call EvEndTransmission Wire.endTransmission.
Definition i2c_requestFrom (address quantity : Z) : M Z :=
  call (EvRequestFrom address quantity)
       (Wire.requestFrom address quantity).
Definition i2c_read : M Z :=
  call EvRead Wire.read.

(** [delay(ms);] *)
Definition delay (ms : Z) : M unit :=
  fun w => (tt, {| self := self w; wire := wire w;
                   trace := trace w ++ [EvDelay ms]; heap := heap w |}).

(** ** [TD_SHT31::TD_SHT31(uint8_t i2c_device_address)]

    [_humidity] and [_temperature] are not initialised: they keep what
    the memory [raw] of the object holds. *)
Definition construct (i2c_device_address : Z) (raw : TD_SHT31)
  : TD_SHT31 :=
  {| _i2c_device_address := to_uint8 i2c_device_address;
     _error_code := NO_ERROR;
     _humidity := _humidity raw; _temperature := _temperature raw;
     _useCRC := ENABLE_CRC; _tUnit := CELSIUS |}.

(** ** [bool TD_SHT31::isSensorConnected()] *)
Definition isSensorConnected : M bool :=
  address <- member _i2c_device_address ;;
  i2c_beginTransmission address ;;
  retval <- i2c_endTransmission ;;
  if negb (retval =? 0)
  then raise ERROR_END_TRANSMISSION ;; ret false
  else ret true.

(** ** [void TD_SHT31::set_defaults(bool useCRC, bool tUnit)]

    The overload with [dataPIN] and [clockPIN] sets the same two
    members; on ESP8266 and ESP32 it also passes the pins to [Wire]. *)
Definition set_defaults (useCRC tUnit : bool) : M unit :=
  with_self (set_modes useCRC tUnit).

(** ** [bool TD_SHT31::resetSensor(uint16_t command)] *)
Definition resetSensor (command : Z) : M bool :=
  let buffer := [to_uint8 (Z.shiftr command 8); Z.land command 0xFF] in
  if negb (command =? CMD_SOFT_RESET) && negb (command =? CMD_GCALL_RESET)
  then raise ERROR_WRONG_COMMAND ;; ret false
  else
    address <- member _i2c_device_address ;;
    i2c_beginTransmission address ;;
    written <- i2c_write buffer ;;
    when (negb (written =? 2)) (raise ERROR_WRITE_LEN) ;;
    i2c_endTransmission ;;    (* Dummy call *)
    retval <- i2c_endTransmission ;;
    if negb (retval =? 0)
    then raise ERROR_END_TRANSMISSION ;; ret false
    else ret true.

(** ** [bool TD_SHT31::begin(TwoWire *wire)]; [begin()] passes [&Wire] *)
Definition begin : M bool :=
  i2c_begin ;;
  i2c_setClock 100000 ;;
  resetSensor CMD_GCALL_RESET.

(** ** [bool TD_SHT31::writeCommand(uint16_t command)] *)
Definition writeCommand (command : Z) : M bool :=
  let buffer := [to_uint8 (Z.shiftr command 8); Z.land command 0xFF] in
  address <- member _i2c_device_address ;;
  i2c_beginTransmission address ;;
  written <- i2c_write buffer ;;
  when (negb (written =? 2)) (raise ERROR_WRITE_LEN) ;;
  retval <- i2c_endTransmission ;;
  if negb (retval =? 0)
  then raise ERROR_END_TRANSMISSION ;; ret false
  else ret true.

(** ** [bool TD_SHT31::readBytes(uint8_t *buffer, uint8_t len)]

    The loop [for (uint8_t i = 0; i < len; i++) buffer[i] = _i2c->read();]
    with [n] turns left; [read] returns an [int], the buffer holds
    [uint8_t]. *)
Fixpoint readBytes_loop (n i : nat) (buffer : list Z) : M (list Z) :=
  match n with
  | O => ret buffer
  | S n' =>
      b <- i2c_read ;;
      readBytes_loop n' (S i) (poke buffer i (to_uint8 b))
  end.

Definition readBytes (buffer : list Z) (len : Z) : M (bool * list Z) :=
  address <- member _i2c_device_address ;;
  retval <- i2c_requestFrom address len ;;
  if retval =? len
  then
    buffer' <- readBytes_loop (Z.to_nat len) 0 buffer ;;
    ret (true, buffer')
  else
    raise ERROR_REQUEST_LEN ;; ret (false, buffer).

(** ** The conversion formulas of [readSensorData]

    [data * (175.0 / 65535) - 45], [data * (315.0 / 65535) - 49] and
    [data * (100.0 / 65535)] are computed in [double], one rounding
    per operation, the integers converted first, and narrowed to
    [float] by the assignment. *)
Definition scale (range : Z) (data : Z) : spec_float :=
  FP.mul dbl (FP.of_int dbl data)
             (FP.div dbl (FP.of_int dbl range) (FP.of_int dbl 65535)).

Definition celsius_of (data : Z) : spec_float :=
  FP.convert FP.binary32 (FP.sub dbl (scale 175 data) (FP.of_int dbl 45)).

Definition farenheit_of (data : Z) : spec_float :=
  FP.convert FP.binary32 (FP.sub dbl (scale 315 data) (FP.of_int dbl 49)).

Definition humidity_of (data : Z) : spec_float :=
  FP.convert FP.binary32 (scale 100 data).

(** ** [bool TD_SHT31::readSensorData()]

    [uint8_t buffer[6]] is not initialised; it is read only after
    [readBytes] has filled it. *)
Definition readSensorData : M bool :=
  r <- readBytes [0; 0; 0; 0; 0; 0] 6 ;;
  let (ok, buffer) := r : bool * list Z in
  if negb ok then ret false
  else
    useCRC <- member _useCRC ;;
    if useCRC && negb (peek buffer 2 =? CRC.crc8 buffer 2)
    then raise ERROR_CRC_CHECK ;; ret false
    else
      if useCRC && negb (peek buffer 5 =? CRC.crc8 (skipn 3 buffer) 2)
      then raise ERROR_CRC_CHECK ;; ret false
      else
        let data := to_uint16 (Z.shiftl (peek buffer 0) 8 + peek buffer 1) in
        tUnit <- member _tUnit ;;
        with_self (set_temperature
                     (if tUnit then celsius_of data       (* Celsius *)
                      else farenheit_of data)) ;;         (* Farenheit *)
        let data := to_uint16 (Z.shiftl (peek buffer 3) 8 + peek buffer 4) in
        with_self (set_humidity (humidity_of data)) ;;
        ret true.

(** ** [bool TD_SHT31::runSingleShot(uint16_t u16Command, float *fT, float *fH)] *)
Definition runSingleShot (u16Command : Z) (fT fH : pointer) : M bool :=
  if negb (u16Command =? CMD_SS_CSD_HIGH)
     && negb (u16Command =? CMD_SS_CSD_MEDIUM)
     && negb (u16Command =? CMD_SS_CSD_LOW)
  then raise ERROR_WRONG_COMMAND ;; ret false
  else
    written <- writeCommand u16Command ;;
    if negb written then ret false
    else
      let u8Delay :=
        (* Refer datasheet page 7 *)
        if u16Command =? CMD_SS_CSD_HIGH then 16
        else if u16Command =? CMD_SS_CSD_MEDIUM then 7
        else if u16Command =? CMD_SS_CSD_LOW then 5
        else 16 in
      delay u8Delay ;;
      ok <- readSensorData ;;
      if ok
      then
        t <- member _temperature ;;
        assign fT t ;;
        h <- member _humidity ;;
        assign fH h ;;
        ret true
      else ret false.

(** ** [bool TD_SHT31::clearSensorStatus()]

    The failure branch is [return 0xFFFF;] in a function that returns
    [bool]. *)
Definition clearSensorStatus : M bool :=
  written <- writeCommand CMD_CLEAR_STATUS ;;
  if negb written
  then ret (bool_of_int 0xFFFF)
  else ret true.

(** ** [uint16_t TD_SHT31::readSensorStatus()] *)
Definition readSensorStatus : M Z :=
  written <- writeCommand CMD_READ_STATUS ;;
  if negb written then ret 0xFFFF
  else
    (* Read status bytes *)
    r <- readBytes [0; 0; 0] 3 ;;
    let (ok, buffer) := r : bool * list Z in
    if negb ok then ret 0xFFFF
    else
      (* CRC *)
      if negb (peek buffer 2 =? CRC.crc8 buffer 2)
      then raise ERROR_CRC_CHECK ;; ret 0xFFFF
      else
        ret (to_uint16
               (to_uint16 (Z.shiftl (peek buffer 0) 8) + peek buffer 1)).

(** ** [int TD_SHT31::getLastError()] *)
Definition getLastError : M Z :=
  retval <- member _error_code ;;
  with_self (set_error_code NO_ERROR) ;;
  ret retval.

End Driver.

Arguments M B : clear implicits.

(* ================================================================== *)
(** * The public operations as data *)
(* ================================================================== *)

(** The operations that may raise a fault ([getLastError] only drains
    the accumulator). *)
Inductive Operation : Type :=
| Begin
| IsSensorConnected
| SetDefaults (useCRC tUnit : bool)
| ResetSensor (command : Z)
| RunSingleShot (u16Command : Z) (fT fH : pointer)
| ClearSensorStatus
| ReadSensorStatus.

(** One call, its result dropped. *)
Definition perform {B : Type} {TW : Wire.TwoWire B} (dbl : FP.format)
  (op : Operation) : M B unit :=
  fun w =>
    (tt,
     match op with
     | Begin => snd (begin w)
     | IsSensorConnected => snd (isSensorConnected w)
     | SetDefaults useCRC tUnit => snd (set_defaults useCRC tUnit w)
     | ResetSensor command => snd (resetSensor command w)
     | RunSingleShot c fT fH => snd (runSingleShot dbl c fT fH w)
     | ClearSensorStatus => snd (clearSensorStatus w)
     | ReadSensorStatus => snd (readSensorStatus w)
     end).

(** The world with its accumulator set to [e]. *)
Definition with_error_code {B : Type} (e : Z) (w : World B) : World B :=
  {| self := set_error_code e (self w); wire := wire w;
     trace := trace w; heap := heap w |}.

(** The faults one call raises: what it leaves in a drained
    accumulator. *)
Definition faults_of {B : Type} {TW : Wire.TwoWire B} (dbl : FP.format)
  (op : Operation) (w : World B) : Z :=
  _error_code (self (snd (perform dbl op (with_error_code NO_ERROR w)))).

(* ================================================================== *)
(** * A scripted bus *)
(* ================================================================== *)

Module Mock.

(** [acks]: what the next calls of [endTransmission] return (0 once
    the script is over); [short_write]: what [write] returns when it
    does not write all the bytes; [replies]: what the sensor sends on
    the next calls of [requestFrom]; [received]: the bytes waiting
    for [read]. *)
Record Bus : Type := {
  acks : list Z;
  short_write : option Z;
  replies : list (list Z);
  received : list Z
}.

Definition endTransmission (b : Bus) : Z * Bus :=
  match acks b with
  | [] => (0, b)
  | a :: rest =>
      (a, {| acks := rest; short_write := short_write b;
             replies := replies b; received := received b |})
  end.

Definition write (bytes : list Z) (b : Bus) : Z * Bus :=
  (match short_write b with
   | Some n => n
   | None => Z.of_nat (length bytes)
   end, b).

Definition requestFrom (address quantity : Z) (b : Bus) : Z * Bus :=
  match replies b with
  | [] => (0, {| acks := acks b; short_write := short_write b;
                 replies := []; received := [] |})
  | r :: rest =>
      let got := firstn (Z.to_nat quantity) r in
      (Z.of_nat (length got),
       {| acks := acks b; short_write := short_write b;
          replies := rest; received := got |})
  end.

(** [read] returns -1 when nothing is waiting. *)
Definition read (b : Bus) : Z * Bus :=
  match received b with
  | [] => (-1, b)
  | x :: rest =>
      (x, {| acks := acks b; short_write := short_write b;
             replies := replies b; received := rest |})
  end.

#[global] Instance Bus_TwoWire : Wire.TwoWire Bus := {
  Wire.begin b := b;
  Wire.setClock _ b := b;
  Wire.beginTransmission _ b := b;
  Wire.write := write;
  Wire.endTransmission := endTransmission;
  Wire.requestFrom := requestFrom;
  Wire.read := read
}.

(** A healthy bus on which the sensor sends [rs]. *)
Definition answering (rs : list (list Z)) : Bus :=
  {| acks := []; short_write := None; replies := rs; received := [] |}.

(** A bus on which nobody acknowledges. *)
Definition silent : Bus :=
  {| acks := [2; 2; 2; 2]; short_write := None;
     replies := []; received := [] |}.

(** A driver object just constructed at address 0x44, its
    measurements at zero. *)
Definition fresh : TD_SHT31 :=
  {| _i2c_device_address := 0x44; _error_code := NO_ERROR;
     _humidity := S754_zero false; _temperature := S754_zero false;
     _useCRC := ENABLE_CRC; _tUnit := CELSIUS |}.

Definition world (s : TD_SHT31) (b : Bus) : World Bus :=
  {| self := s; wire := b; trace := [];
     heap := fun _ => S754_zero false |}.

(** A session with the checksum enforcement disabled. *)
Definition unchecked : TD_SHT31 := set_modes DISABLE_CRC CELSIUS fresh.

(** A status word whose checksum byte is wrong. *)
Definition bad_status : list Z := [0x80; 0x10; 0x00].

(** A measurement whose first checksum byte is wrong ([0xBE, 0xEF,
    0x92] is the vector of the datasheet). *)
Definition bad_measurement : list Z := [0x6A; 0x65; 0x00; 0xBE; 0xEF; 0x92].

(** The same measurement with its two checksum bytes. *)
Definition good_measurement : list Z := [0x6A; 0x65; 0x74; 0xBE; 0xEF; 0x92].

End Mock.

(* ================================================================== *)
(** * Vocabulary of the statements *)
(* ================================================================== *)

(** The measurement the session holds and the caller's variables. *)
Definition same_measurement {B : Type} (w w' : World B) : Prop :=
  _temperature (self w') = _temperature (self w)
  /\ _humidity (self w') = _humidity (self w)
  /\ heap w' = heap w.

(** The configuration of the session. *)
Definition same_configuration {B : Type} (w w' : World B) : Prop :=
  _i2c_device_address (self w') = _i2c_device_address (self w)
  /\ _useCRC (self w') = _useCRC (self w)
  /\ _tUnit (self w') = _tUnit (self w).

(** The world with the faults [e] already in its accumulator. *)
Definition bump {B : Type} (e : Z) (w : World B) : World B :=
  with_error_code (Z.lor e (_error_code (self w))) w.

(** A computation that touches the accumulator only by ORing into it:
    on an accumulator that already holds [e] it does the same and leaves
    [e] in. *)
Definition accumulates {B A : Type} (m : M B A) : Prop :=
  forall e w, m (bump e w) = (fst (m w), bump e (snd (m w))).

(** A computation that leaves the measurement and the configuration
    alone. *)
Definition transparent {B A : Type} (m : M B A) : Prop :=
  forall w, same_measurement w (snd (m w))
            /\ same_configuration w (snd (m w)).

(** The two bytes of a command on the wire. *)
Definition command_bytes (command : Z) : list Z :=
  [to_uint8 (Z.shiftr command 8); Z.land command 0xFF].

(** The raw 16-bit code of the field that starts at [buffer[i]]. *)
Definition code_at (buffer : list Z) (i : nat) : Z :=
  256 * peek buffer i + peek buffer (S i).

(** The trailing byte of the field that starts at [buffer[i]] is not the
    checksum of its two bytes. *)
Definition corrupted_at (buffer : list Z) (i : nat) : Prop :=
  peek buffer (i + 2) <> CRC.crc8 (skipn i buffer) 2.

(** The timing policy: the minimum wait after a single-shot command,
    in milliseconds, by repeatability. *)
Definition minimum_delay (command : Z) : Z :=
  if command =? CMD_SS_CSD_HIGH then 16
  else if command =? CMD_SS_CSD_MEDIUM then 7
  else if command =? CMD_SS_CSD_LOW then 5
  else 0.

(** The three single-shot commands [runSingleShot] accepts. *)
Definition single_shot_commands : list Z :=
  [CMD_SS_CSD_HIGH; CMD_SS_CSD_MEDIUM; CMD_SS_CSD_LOW].

(** A step of [runSingleShot] fails: the command is not a single-shot
    command, or the command is not written, or fewer than 6 bytes come
    back, or a checksum does not match while the checksums are
    enforced. *)
Definition failed_step {B : Type} {TW : Wire.TwoWire B}
  (u16Command : Z) (w : World B) : Prop :=
  ~ In u16Command single_shot_commands
  \/ fst (writeCommand u16Command w) = false
  \/ (let w1 := snd (delay (minimum_delay u16Command)
                           (snd (writeCommand u16Command w))) in
      let r := fst (readBytes [0; 0; 0; 0; 0; 0] 6 w1) in
      fst r = false
      \/ (_useCRC (self w) = true
          /\ (corrupted_at (snd r) 0 \/ corrupted_at (snd r) 3))).

(** The real number a floating-point number stands for (0 for the
    infinities and NaN). *)
Definition SF2R (x : spec_float) : R :=
  match x with
  | S754_finite s m e => (IZR (cond_Zopp s (Z.pos m)) * powerRZ 2 e)%R
  | _ => 0%R
  end.

Definition is_finite (x : spec_float) : bool :=
  match x with
  | S754_zero _ | S754_finite _ _ _ => true
  | _ => false
  end.

(** The exponent of a finite number is at most [E]. *)
Definition exponent_le (x : spec_float) (E : Z) : Prop :=
  match x with
  | S754_finite _ _ e => e <= E
  | _ => True
  end.

(** What [binary_round_aux] builds from the last significand and
    exponent. *)
Definition finish (prec emax : Z) (s : bool) (m e : Z) : spec_float :=
  match m with
  | Z0 => S754_zero s
  | Zpos p => if e <=? emax - prec then S754_finite s p e else S754_infinity s
  | Zneg _ => S754_nan
  end.

(** The constant [range / 65535] of a conversion formula, as computed:
    finite, of a small exponent, and within [2^-31] of the ratio. *)
Definition approximates_ratio (c : spec_float) (range : Z) : Prop :=
  is_finite c = true
  /\ exponent_le c (-14)
  /\ (Rabs (SF2R c - IZR range / 65535) <= powerRZ 2 (-31))%R.

(** Within the tolerance [1e-3]. *)
Definition within_tolerance (x : spec_float) (exact : R) : Prop :=
  is_finite x = true /\ (Rabs (SF2R x - exact) <= 1 / 1000)%R.

(* ================================================================== *)
(** * Vocabulary of the further properties *)
(* ================================================================== *)

(** The fault [f] is in the accumulator [e]. *)
Definition has_fault (e f : Z) : Prop := Z.land e f = f.

(** The number of bits an error byte flips. *)
Definition flipped_bits (e : Z) : Z :=
  fold_right Z.add 0
    (map (fun i => Z.b2z (Z.testbit e i)) [0; 1; 2; 3; 4; 5; 6; 7]).


(** The faults that make a call fail: a short write does not. *)
Definition FATAL_FAULTS : Z :=
  Z.lor ERROR_END_TRANSMISSION
    (Z.lor ERROR_REQUEST_LEN
       (Z.lor ERROR_CRC_CHECK ERROR_WRONG_COMMAND)).


(** A computation whose every run relates the world before to the
    world after by [I]. *)
Definition preserves {B A : Type} (I : World B -> World B -> Prop)
  (m : M B A) : Prop :=
  forall w, I w (snd (m w)).


(** Neither the measurement nor the configuration changes. *)
Definition untouched {B : Type} (w w' : World B) : Prop :=
  same_measurement w w' /\ same_configuration w w'.

(** No time is spent in [delay]. *)
Definition no_wait {B : Type} (w w' : World B) : Prop :=
  delayed (trace w') = delayed (trace w).

(** What the next [n] calls of [read] return, and the bus after them. *)
Fixpoint bus_reads {B : Type} {TW : Wire.TwoWire B} (n : nat) (b : B)
  : list Z * B :=
  match n with
  | O => ([], b)
  | S n' =>
      let (x, b1) := Wire.read b in
      let (xs, b2) := bus_reads n' b1 in
      (x :: xs, b2)
  end.



(** A bus on which the first transmission is not acknowledged and the
    next ones are. *)
Definition nack_once : Mock.Bus :=
  {| Mock.acks := [2]; Mock.short_write := None;
     Mock.replies := []; Mock.received := [] |}.

(** A bus on which [write] takes one byte only. *)
Definition short_writing : Mock.Bus :=
  {| Mock.acks := []; Mock.short_write := Some 1;
     Mock.replies := []; Mock.received := [] |}.

(** The status word 0xFFFF with its checksum. *)
Definition status_all_ones : list Z := [0xFF; 0xFF; 0xAC].

(** The result of a call tells whether a fault that fails a call is in
    the accumulator after it. *)
Definition told_by_faults {B : Type} (r : bool * World B) : Prop :=
  fst r = true <-> Z.land (_error_code (self (snd r))) FATAL_FAULTS = 0.

(** Every operation but the measurement leaves the measurement alone,
    every operation but [set_defaults] the configuration. *)
Definition leaves_measurement (op : Operation) : bool :=
  match op with
  | RunSingleShot _ _ _ => false
  | _ => true
  end.

Definition leaves_configuration (op : Operation) : bool :=
  match op with
  | SetDefaults _ _ => false
  | _ => true
  end.

(* ================================================================== *)
(** * Properties of the checksum *)
(* ================================================================== *)

Module CRCFacts.
Import CRC.

(** A property checked on the 256 bytes holds of every byte. *)
Lemma forall_bytes (P : Z -> bool) :
  forallb P (map Z.of_nat (seq 0 256)) = true ->
  forall c, is_byte c -> P c = true.
Proof.
  intros H c Hc.
  rewrite forallb_forall in H. apply H.
  apply in_map_iff. exists (Z.to_nat c). split.
  - apply Z2Nat.id. apply Hc.
  - apply in_seq. unfold is_byte in Hc. lia.
Qed.

Lemma to_uint8_byte c : is_byte (to_uint8 c).
Proof. unfold is_byte, to_uint8. apply Z.mod_pos_bound. lia. Qed.

Lemma to_uint8_id c : is_byte c -> to_uint8 c = c.
Proof. unfold is_byte, to_uint8. intros H. apply Z.mod_small. exact H. Qed.

Lemma below_byte b : is_byte b -> below 8 b.
Proof.
  intros Hb i Hi.
  rewrite <- (to_uint8_id b Hb). unfold to_uint8.
  change 256 with (2 ^ 8).
  apply Z.mod_pow2_bits_high. lia.
Qed.

Lemma lxor_byte a b : is_byte a -> is_byte b -> is_byte (Z.lxor a b).
Proof.
  intros Ha Hb.
  assert (E : to_uint8 (Z.lxor a b) = Z.lxor a b).
  { unfold to_uint8. change 256 with (2 ^ 8).
    apply Z.bits_inj'. intros n Hn.
    destruct (Z.lt_ge_cases n 8) as [Hlow | Hhigh].
    - now apply Z.mod_pow2_bits_low.
    - rewrite Z.mod_pow2_bits_high by lia.
      rewrite Z.lxor_spec.
      now rewrite (below_byte a Ha n Hhigh), (below_byte b Hb n Hhigh). }
  rewrite <- E. apply to_uint8_byte.
Qed.

Lemma crc8_shift_byte c : is_byte (crc8_shift c).
Proof. apply to_uint8_byte. Qed.

Lemma crc8_bits_byte i : forall c, is_byte c -> is_byte (crc8_bits i c).
Proof.
  induction i as [|i IH]; intros c Hc; simpl; [exact Hc|].
  apply IH, crc8_shift_byte.
Qed.

(** ** The source against the words of the specification *)

Lemma crc8_shift_spec_bit c : is_byte c -> crc8_shift c = spec_bit c.
Proof.
  intros Hc.
  apply Z.eqb_eq.
  apply (forall_bytes (fun c => crc8_shift c =? spec_bit c)); [|exact Hc].
  vm_compute. reflexivity.
Qed.

Lemma crc8_bits_iter i :
  forall c, is_byte c -> crc8_bits i c = Nat.iter i spec_bit c.
Proof.
  induction i as [|i IH]; intros c Hc; [reflexivity|].
  rewrite Nat.iter_succ_r. simpl crc8_bits.
  rewrite <- crc8_shift_spec_bit by exact Hc.
  apply IH, crc8_shift_byte.
Qed.

Lemma spec_byte_byte crc b :
  is_byte crc -> is_byte b -> is_byte (spec_byte crc b).
Proof.
  intros H1 H2. unfold spec_byte.
  rewrite <- crc8_bits_iter by now apply lxor_byte.
  apply crc8_bits_byte. now apply lxor_byte.
Qed.

Lemma crc8_bytes_fold data :
  forall crc, Forall is_byte data -> is_byte crc ->
  crc8_bytes (length data) data crc = fold_left spec_byte data crc.
Proof.
  induction data as [|b rest IH]; intros crc Hd Hc; [reflexivity|].
  inversion Hd as [|? ? Hb Hrest]; subst.
  assert (Hx : is_byte (Z.lxor crc b)) by now apply lxor_byte.
  cbn [crc8_bytes length fold_left hd tl].
  rewrite to_uint8_id by exact Hx.
  rewrite IH by (exact Hrest || now apply crc8_bits_byte).
  f_equal. unfold spec_byte. now apply crc8_bits_iter.
Qed.

(** ** The source against the polynomial division *)

Lemma below_shiftl n k x :
  0 <= n -> 0 <= k -> below n x -> below (n + k) (Z.shiftl x k).
Proof.
  intros Hn Hk Hx i Hi.
  rewrite Z.shiftl_spec by lia. apply Hx. lia.
Qed.

Lemma below_lxor n x y : below n x -> below n y -> below n (Z.lxor x y).
Proof.
  intros Hx Hy i Hi. now rewrite Z.lxor_spec, Hx, Hy.
Qed.

Lemma below_le n m x : n <= m -> below n x -> below m x.
Proof. intros Hnm Hx i Hi. apply Hx. lia. Qed.

Lemma message_poly_below data :
  Forall is_byte data -> below (8 * Z.of_nat (length data)) (message_poly data).
Proof.
  induction 1 as [|b rest Hb Hrest IH]; cbn [message_poly].
  - intros i _. apply Z.bits_0.
  - change (length (b :: rest)) with (S (length rest)).
    apply below_lxor.
    + replace (8 * Z.of_nat (S (length rest)))
        with (8 + 8 * Z.of_nat (length rest)) by lia.
      apply below_shiftl; [lia | lia | now apply below_byte].
    + eapply below_le; [|exact IH]. lia.
Qed.

(** Cancelling the top coefficient of a register is one turn of the
    inner loop. *)
Lemma cancel_top c :
  is_byte c ->
  (if Z.testbit c 7 then Z.lxor (Z.shiftl c 1) GENERATOR else Z.shiftl c 1)
  = crc8_shift c.
Proof.
  intros Hc. apply Z.eqb_eq.
  apply (forall_bytes
           (fun c => (if Z.testbit c 7
                      then Z.lxor (Z.shiftl c 1) GENERATOR
                      else Z.shiftl c 1) =? crc8_shift c)); [|exact Hc].
  vm_compute. reflexivity.
Qed.

(** [j] steps of the division on a register placed at [x^q] are [j]
    turns of the inner loop, whatever lies under the register. *)
Lemma poly_mod_bits j :
  forall q c low,
    is_byte c -> below (Z.of_nat q + 8) low ->
    poly_mod (j + q) (Z.lxor (Z.shiftl c (Z.of_nat (j + q))) low)
    = poly_mod q (Z.lxor (Z.shiftl (crc8_bits j c) (Z.of_nat q)) low).
Proof.
  induction j as [|j IH]; intros q c low Hc Hlow; [reflexivity|].
  change (S j + q)%nat with (S (j + q)).
  cbn [poly_mod crc8_bits].
  set (p := Z.of_nat (j + q)).
  assert (Hp : 0 <= p) by (unfold p; lia).
  replace (Z.of_nat (S (j + q))) with (1 + p) by (unfold p; lia).
  rewrite <- Z.shiftl_shiftl by lia.
  rewrite Z.lxor_spec, Z.shiftl_spec by lia.
  replace (p + 8 - p) with 8 by lia.
  rewrite (Hlow (p + 8)) by (unfold p; lia).
  rewrite xorb_false_r.
  rewrite Z.shiftl_spec by lia. change (8 - 1) with 7.
  rewrite <- IH by (exact Hlow || apply crc8_shift_byte).
  fold p. f_equal.
  rewrite <- (cancel_top c Hc).
  destruct (Z.testbit c 7).
  - rewrite Z.shiftl_lxor.
    rewrite !Z.lxor_assoc. f_equal. apply Z.lxor_comm.
  - reflexivity.
Qed.

Lemma crc8_bytes_division data :
  forall crc, Forall is_byte data -> is_byte crc ->
  crc8_bytes (length data) data crc
  = poly_mod (8 * length data)
      (Z.lxor (Z.shiftl crc (8 * Z.of_nat (length data)))
              (Z.shiftl (message_poly data) 8)).
Proof.
  induction data as [|b rest IH]; intros crc Hd Hc.
  - simpl. rewrite Z.lxor_0_r. reflexivity.
  - inversion Hd as [|? ? Hb Hrest]; subst.
    assert (Hx : is_byte (Z.lxor crc b)) by now apply lxor_byte.
    cbn [crc8_bytes length hd tl message_poly].
    rewrite to_uint8_id by exact Hx.
    rewrite IH by (exact Hrest || now apply crc8_bits_byte).
    set (m := length rest).
    replace (8 * S m)%nat with (8 + 8 * m)%nat by lia.
    replace (8 * Z.of_nat m) with (Z.of_nat (8 * m)) by lia.
    rewrite <- poly_mod_bits.
    + f_equal.
      replace (8 * Z.of_nat (S m)) with (Z.of_nat (8 * m) + 8) by lia.
      replace (Z.of_nat (8 + 8 * m)) with (Z.of_nat (8 * m) + 8) by lia.
      rewrite !Z.shiftl_lxor, Z.shiftl_shiftl by lia.
      rewrite !Z.lxor_assoc. reflexivity.
    + exact Hx.
    + replace (Z.of_nat (8 * m) + 8) with (8 * Z.of_nat m + 8) by lia.
      apply below_shiftl; [lia | lia |].
      now apply message_poly_below.
Qed.

End CRCFacts.

(** C1. [crc8] is the CRC-8 with initial value 0xFF and polynomial 0x31,
    most significant bit first, without reflection and without final
    XOR: on every span of bytes (of a length a [uint8_t] holds) it
    returns what the specification's bit-by-bit description returns and
    the remainder of the polynomial division, and the checksum of
    [0xBE, 0xEF] is [0x92]. *)
Theorem crc8_is_crc8_0x31 (data : list Z) :
  Forall is_byte data ->
  (length data < 256)%nat ->
  CRC.crc8 data (Z.of_nat (length data)) = CRC.crc8_spec data
  /\ CRC.crc8 data (Z.of_nat (length data)) = CRC.crc8_division data
  /\ CRC.crc8 [0xBE; 0xEF] 2 = 0x92.
Proof.
  intros Hd Hlen.
  assert (E : CRC.crc8 data (Z.of_nat (length data))
              = CRC.crc8_bytes (length data) data 0xFF).
  { unfold CRC.crc8, to_uint8.
    rewrite Z.mod_small by lia. now rewrite Nat2Z.id. }
  assert (Hff : is_byte 0xFF) by (unfold is_byte; lia).
  rewrite E. repeat split.
  - now apply CRCFacts.crc8_bytes_fold.
  - now apply CRCFacts.crc8_bytes_division.
Qed.

Lemma crc8_is_crc8_0x31_witness :
  CRC.crc8 [0xBE; 0xEF] (Z.of_nat (length [0xBE; 0xEF]))
  = CRC.crc8_spec [0xBE; 0xEF]
  /\ CRC.crc8 [0xBE; 0xEF] (Z.of_nat (length [0xBE; 0xEF]))
     = CRC.crc8_division [0xBE; 0xEF]
  /\ CRC.crc8 [0xBE; 0xEF] 2 = 0x92.
Proof.
  apply (crc8_is_crc8_0x31 [0xBE; 0xEF]).
  - repeat constructor; unfold is_byte; lia.
  - simpl. lia.
Defined.

(* ================================================================== *)
(** * Properties of the floating-point operations *)
(* ================================================================== *)

Module FloatFacts.

(** ** Powers of two *)

Lemma pow2_pos e : (0 < powerRZ 2 e)%R.
Proof. apply powerRZ_lt. lra. Qed.

Lemma pow2_add a b : powerRZ 2 (a + b) = (powerRZ 2 a * powerRZ 2 b)%R.
Proof. apply powerRZ_add. lra. Qed.

Lemma pow2_IZR k : 0 <= k -> powerRZ 2 k = IZR (2 ^ k).
Proof.
  intros Hk. destruct k as [|p|p]; [reflexivity | | lia].
  cbn [powerRZ]. rewrite pow_IZR. f_equal.
  now rewrite positive_nat_Z.
Qed.

Lemma pow2_le a b : a <= b -> (powerRZ 2 a <= powerRZ 2 b)%R.
Proof.
  intros H. replace b with (a + (b - a)) by lia.
  rewrite pow2_add, (pow2_IZR (b - a)) by lia.
  assert (Hp : 0 < 2 ^ (b - a)) by (apply Z.pow_pos_nonneg; lia).
  assert (H1 : 1 <= 2 ^ (b - a)) by lia.
  apply IZR_le in H1. pose proof (pow2_pos a). nra.
Qed.

Lemma pow2_lt_inv a b : (powerRZ 2 a < powerRZ 2 b)%R -> a < b.
Proof.
  intros H. destruct (Z.lt_ge_cases a b) as [Hlt | Hge]; [exact Hlt|].
  apply pow2_le in Hge. lra.
Qed.

Lemma IZR_cond_Zopp s m : IZR (cond_Zopp s m) = (if s then - IZR m else IZR m)%R.
Proof. destruct s; cbn [cond_Zopp]; [apply opp_IZR | reflexivity]. Qed.

Lemma Rabs_cond (s : bool) (r : R) :
  Rabs (if s then (- r)%R else r) = Rabs r.
Proof. destruct s; [apply Rabs_Ropp | reflexivity]. Qed.

(** The magnitude of a value bounds its digits. *)
Lemma digits_of_value m e B :
  (IZR (Z.pos m) * powerRZ 2 e < powerRZ 2 B)%R ->
  Zdigits2 (Z.pos m) + e <= B.
Proof.
  intros H. cbn [Zdigits2].
  assert (Hlo : 2 ^ (Z.pos (digits2_pos m) - 1) <= Z.pos m).
  { clear. induction m as [m IH | m IH |]; cbn [digits2_pos].
    - rewrite Pos2Z.inj_succ.
      replace (Z.succ (Z.pos (digits2_pos m)) - 1)
        with (Z.succ (Z.pos (digits2_pos m) - 1)) by lia.
      rewrite Z.pow_succ_r by lia. lia.
    - rewrite Pos2Z.inj_succ.
      replace (Z.succ (Z.pos (digits2_pos m)) - 1)
        with (Z.succ (Z.pos (digits2_pos m) - 1)) by lia.
      rewrite Z.pow_succ_r by lia. lia.
    - cbn. lia. }
  apply IZR_le in Hlo. rewrite <- pow2_IZR in Hlo by lia.
  assert (H' : (powerRZ 2 (Z.pos (digits2_pos m) - 1 + e) < powerRZ 2 B)%R).
  { rewrite pow2_add. pose proof (pow2_pos e). nra. }
  apply pow2_lt_inv in H'. lia.
Qed.

Section Rounding.

Variables prec emax : Z.
Hypothesis prec_pos : 0 < prec.

Local Abbreviation fexp := (fexp prec emax).
Local Abbreviation emin := (emin prec emax).

Lemma fexp_mono a b : a <= b -> fexp a <= fexp b.
Proof. unfold SpecFloat.fexp. lia. Qed.

Lemma fexp_ge_emin a : emin <= fexp a.
Proof. unfold SpecFloat.fexp. lia. Qed.

(** ** Digits *)

Lemma digits2_pos_bounds m :
  2 ^ (Z.pos (digits2_pos m) - 1) <= Z.pos m < 2 ^ Z.pos (digits2_pos m).
Proof.
  induction m as [m IH | m IH |]; cbn [digits2_pos].
  - rewrite Pos2Z.inj_succ.
    replace (Z.succ (Z.pos (digits2_pos m)) - 1)
      with (Z.succ (Z.pos (digits2_pos m) - 1)) by lia.
    rewrite !Z.pow_succ_r by lia. lia.
  - rewrite Pos2Z.inj_succ.
    replace (Z.succ (Z.pos (digits2_pos m)) - 1)
      with (Z.succ (Z.pos (digits2_pos m) - 1)) by lia.
    rewrite !Z.pow_succ_r by lia. lia.
  - cbn. lia.
Qed.

Lemma Zdigits2_le m n : 0 <= n -> 0 <= m < 2 ^ n -> Zdigits2 m <= n.
Proof.
  intros Hn [Hm Hlt]. destruct m as [|m|m]; cbn [Zdigits2]; try lia.
  destruct (digits2_pos_bounds m) as [Hlo _].
  destruct (Z.lt_ge_cases (Z.pos (digits2_pos m) - 1) n) as [H | H]; [lia|].
  apply (Z.pow_le_mono_r 2) in H; lia.
Qed.

Lemma Zdigits2_nonneg m : 0 <= Zdigits2 m.
Proof. destruct m; cbn; lia. Qed.

Lemma Zdigits2_gt m : 0 <= m -> m < 2 ^ Zdigits2 m.
Proof.
  intros Hm. destruct m as [|m|m]; cbn [Zdigits2]; try lia.
  apply digits2_pos_bounds.
Qed.

(** ** Shifts *)

Lemma shr_1_m mrs : 0 <= shr_m mrs -> shr_m (shr_1 mrs) = shr_m mrs / 2.
Proof.
  destruct mrs as [m r s]. cbn [shr_m]. intros Hm.
  rewrite <- Z.div2_div.
  destruct m as [|[p|p|]|p]; try reflexivity; lia.
Qed.

Lemma iter_shr_1_m p :
  forall mrs, 0 <= shr_m mrs ->
  shr_m (SpecFloat.iter_pos shr_1 p mrs) = shr_m mrs / 2 ^ Z.pos p.
Proof.
  induction p as [p IH | p IH |]; intros mrs Hm; cbn [SpecFloat.iter_pos].
  - assert (H1 : 0 <= shr_m (shr_1 mrs))
      by (rewrite shr_1_m by exact Hm; apply Z.div_pos; lia).
    assert (H2 : 0 <= shr_m (SpecFloat.iter_pos shr_1 p (shr_1 mrs)))
      by (rewrite IH by exact H1; apply Z.div_pos; lia).
    rewrite IH by exact H2. rewrite IH by exact H1. rewrite shr_1_m by exact Hm.
    rewrite !Z.div_div by lia. f_equal.
    change 2 with (2 ^ 1) at 1.
    rewrite <- !Z.pow_add_r by lia. f_equal. lia.
  - assert (H2 : 0 <= shr_m (SpecFloat.iter_pos shr_1 p mrs))
      by (rewrite IH by exact Hm; apply Z.div_pos; lia).
    rewrite IH by exact H2. rewrite IH by exact Hm.
    rewrite !Z.div_div by lia. f_equal.
    rewrite <- Z.pow_add_r by lia. f_equal. lia.
  - rewrite shr_1_m by exact Hm. reflexivity.
Qed.

Lemma shr_record_of_loc_m m l : shr_m (shr_record_of_loc m l) = m.
Proof. destruct l as [|[| |]]; reflexivity. Qed.

(** [shr_fexp] divides the significand by a power of two and raises the
    exponent as much. *)
Lemma shr_fexp_spec m e l :
  0 <= m ->
  let k := Z.max 0 (fexp (Zdigits2 m + e) - e) in
  shr_m (fst (shr_fexp prec emax m e l)) = m / 2 ^ k
  /\ snd (shr_fexp prec emax m e l) = e + k.
Proof.
  intros Hm k. unfold shr_fexp, shr.
  subst k.
  destruct (fexp (Zdigits2 m + e) - e) as [|p|p] eqn:E; cbn [fst snd].
  - rewrite shr_record_of_loc_m. cbn. rewrite Z.div_1_r. lia.
  - rewrite iter_shr_1_m by (rewrite shr_record_of_loc_m; exact Hm).
    rewrite shr_record_of_loc_m.
    replace (Z.max 0 (Z.pos p)) with (Z.pos p) by lia. split; reflexivity.
  - rewrite shr_record_of_loc_m.
    replace (Z.max 0 (Z.neg p)) with 0 by lia.
    cbn. rewrite Z.div_1_r. lia.
Qed.

Lemma round_nearest_even_bounds m l :
  m <= round_nearest_even m l <= m + 1.
Proof.
  unfold round_nearest_even.
  destruct l as [|[| |]]; try destruct (Z.even m); lia.
Qed.

Lemma div_pow2_bounds m k :
  0 <= m -> 0 <= k ->
  0 <= m / 2 ^ k /\ 2 ^ k * (m / 2 ^ k) <= m < 2 ^ k * (m / 2 ^ k + 1).
Proof.
  intros Hm Hk.
  assert (Hp : 0 < 2 ^ k) by (apply Z.pow_pos_nonneg; lia).
  split; [apply Z.div_pos; lia|].
  split; [apply Z.mul_div_le; lia|].
  pose proof (Z.mul_succ_div_gt m (2 ^ k) Hp). lia.
Qed.

Lemma rounded_digits m1 m1r dm k1 :
  0 <= m1 -> m1 <= m1r <= m1 + 1 -> 0 <= k1 -> 0 <= dm ->
  2 ^ k1 * m1 < 2 ^ dm ->
  Zdigits2 m1r + k1 <= Z.max (dm + 1) (k1 + 1).
Proof.
  intros Hm1 Hr Hk Hd Hlt.
  destruct (Z.le_gt_cases k1 dm) as [Hle | Hgt].
  - assert (H : m1 < 2 ^ (dm - k1)).
    { replace dm with (k1 + (dm - k1)) in Hlt by lia.
      rewrite Z.pow_add_r in Hlt by lia.
      assert (Hp : 0 < 2 ^ k1) by (apply Z.pow_pos_nonneg; lia).
      nia. }
    assert (H' : Zdigits2 m1r <= dm - k1 + 1).
    { apply Zdigits2_le; [lia|]. split; [lia|].
      rewrite Z.pow_add_r by lia. change (2 ^ 1) with 2.
      assert (0 < 2 ^ (dm - k1)) by (apply Z.pow_pos_nonneg; lia). lia. }
    lia.
  - assert (H : m1 = 0).
    { assert (2 ^ dm <= 2 ^ k1) by (apply Z.pow_le_mono_r; lia).
      assert (Hp : 0 < 2 ^ k1) by (apply Z.pow_pos_nonneg; lia).
      nia. }
    assert (H' : Zdigits2 m1r <= 1).
    { apply Zdigits2_le; [lia|]. change (2 ^ 1) with 2. lia. }
    lia.
Qed.

(** Rounding a significand with no bits lost yet: the result is at most
    two units of its last place away, and its exponent is bounded by the
    magnitude of the input. *)
Lemma binary_round_aux_Z s mx e B :
  Zdigits2 (Z.pos mx) + e <= B ->
  exists m2 e2,
    binary_round_aux prec emax s (Z.pos mx) e loc_Exact = finish prec emax s m2 e2
    /\ 0 <= m2
    /\ e <= e2 <= Z.max e (fexp (B + 1))
    /\ Z.abs (m2 * 2 ^ (e2 - e) - Z.pos mx) <= 2 * 2 ^ (e2 - e).
Proof.
  intros HB. unfold binary_round_aux.
  set (D := Zdigits2 (Z.pos mx) + e) in *.
  destruct (shr_fexp_spec (Z.pos mx) e loc_Exact) as [Hm1 He1]; [lia|].
  fold D in Hm1, He1.
  destruct (shr_fexp prec emax (Z.pos mx) e loc_Exact) as [mrs1 e1].
  cbn [fst snd] in Hm1, He1.
  set (k1 := Z.max 0 (fexp D - e)) in *.
  set (m1 := shr_m mrs1) in *.
  set (m1r := round_nearest_even m1 (loc_of_shr_record mrs1)).
  pose proof (round_nearest_even_bounds m1 (loc_of_shr_record mrs1)) as Hr.
  fold m1r in Hr.
  destruct (div_pow2_bounds (Z.pos mx) k1) as [Hm1pos Hm1b]; [lia | lia |].
  rewrite <- Hm1 in Hm1pos, Hm1b.
  destruct (shr_fexp_spec m1r e1 loc_Exact) as [Hm2 He2]; [lia|].
  destruct (shr_fexp prec emax m1r e1 loc_Exact) as [mrs2 e2].
  cbn [fst snd] in Hm2, He2.
  set (k2 := Z.max 0 (fexp (Zdigits2 m1r + e1) - e1)) in *.
  set (m2 := shr_m mrs2) in *.
  destruct (div_pow2_bounds m1r k2) as [Hm2pos Hm2b]; [lia | lia |].
  rewrite <- Hm2 in Hm2pos, Hm2b.
  assert (Hdig : Zdigits2 m1r + k1 <= Z.max (Zdigits2 (Z.pos mx) + 1) (k1 + 1)).
  { apply (rounded_digits m1); try lia.
    - apply Zdigits2_nonneg.
    - pose proof (Zdigits2_gt (Z.pos mx)). lia. }
  assert (Hk2 : e1 + k2 <= Z.max e (fexp (B + 1))).
  { pose proof (fexp_mono (Zdigits2 m1r + e1) (Z.max (D + 1) (e1 + 1))) as F.
    pose proof (fexp_mono (D + 1) (B + 1)) as F1.
    pose proof (fexp_mono D (B + 1)) as F2.
    pose proof (fexp_ge_emin D) as F3.
    assert (F4 : fexp (Z.max (D + 1) (e1 + 1)) <= Z.max (fexp (D + 1)) e1).
    { unfold SpecFloat.fexp in *. lia. }
    subst k1 k2 D. lia. }
  exists m2, e2. split; [reflexivity|].
  split; [exact Hm2pos|].
  split; [subst k1 k2; lia|].
  replace (e2 - e) with (k1 + k2) by lia.
  rewrite Z.pow_add_r by (subst k1 k2; lia).
  assert (P1 : 0 < 2 ^ k1) by (apply Z.pow_pos_nonneg; subst k1; lia).
  assert (P2 : 0 < 2 ^ k2) by (apply Z.pow_pos_nonneg; subst k2; lia).
  set (p1 := 2 ^ k1) in *. set (p2 := 2 ^ k2) in *.
  clearbody p1 p2. clear - Hm1b Hm2b Hr P1 P2 Hm2pos Hm1pos.
  apply Z.abs_le. split; nia.
Qed.

Lemma finish_R s m e :
  0 <= m -> e <= emax - prec ->
  is_finite (finish prec emax s m e) = true
  /\ SF2R (finish prec emax s m e) = (IZR (cond_Zopp s m) * powerRZ 2 e)%R
  /\ exponent_le (finish prec emax s m e) e.
Proof.
  intros Hm He. unfold finish.
  destruct m as [|p|p]; [| | lia].
  - cbn. destruct s; cbn; repeat split; lra.
  - apply Z.leb_le in He. rewrite He. cbn. repeat split. lia.
Qed.

(** Rounding in real numbers: the result is finite, within [2 * 2^E] of
    the input, and its exponent is at most [E]. *)
Lemma binary_round_aux_R s mx e B E :
  Zdigits2 (Z.pos mx) + e <= B ->
  Z.max e (fexp (B + 1)) <= E -> E <= emax - prec ->
  let x := binary_round_aux prec emax s (Z.pos mx) e loc_Exact in
  is_finite x = true
  /\ (Rabs (SF2R x - IZR (cond_Zopp s (Z.pos mx)) * powerRZ 2 e)
      <= 2 * powerRZ 2 E)%R
  /\ exponent_le x E.
Proof.
  intros HB HE Hmax x.
  destruct (binary_round_aux_Z s mx e B HB) as (m2 & e2 & Hx & Hm2 & He2 & Herr).
  subst x. rewrite Hx.
  destruct (finish_R s m2 e2 Hm2) as (Hf & Hv & Hexp); [lia|].
  split; [exact Hf|]. split.
  - rewrite Hv, !IZR_cond_Zopp.
    replace e2 with ((e2 - e) + e) at 1 by lia.
    rewrite pow2_add, (pow2_IZR (e2 - e)) by lia.
    apply IZR_le in Herr. rewrite abs_IZR, minus_IZR, !mult_IZR in Herr.
    rewrite <- (pow2_IZR (e2 - e)) in * by lia.
    assert (Hle : (powerRZ 2 (e2 - e) * powerRZ 2 e <= powerRZ 2 E)%R).
    { rewrite <- pow2_add. apply pow2_le. lia. }
    pose proof (pow2_pos e) as Hpe.
    set (pe := powerRZ 2 e) in *. set (pk := powerRZ 2 (e2 - e)) in *.
    set (a := IZR m2) in *. set (b := IZR (Z.pos mx)) in *.
    change (IZR 2) with 2%R in Herr.
    assert (Hd : (Rabs ((a * pk - b) * pe) <= 2 * pk * pe)%R).
    { rewrite Rabs_mult, (Rabs_pos_eq pe) by lra.
      apply Rmult_le_compat_r; lra. }
    destruct s.
    + replace (- a * (pk * pe) - - b * pe)%R with (- ((a * pk - b) * pe))%R
        by ring.
      rewrite Rabs_Ropp. lra.
    + replace (a * (pk * pe) - b * pe)%R with ((a * pk - b) * pe)%R by ring.
      lra.
  - unfold exponent_le in *. destruct (finish prec emax s m2 e2); try exact I. lia.
Qed.

(** ** Alignment *)

Lemma iter_xO m d :
  Z.pos (Pos.iter xO m d) = Z.pos m * 2 ^ Z.pos d
  /\ Z.pos (digits2_pos (Pos.iter xO m d)) = Z.pos (digits2_pos m) + Z.pos d.
Proof.
  induction d as [|d IH] using Pos.peano_ind.
  - cbn [Pos.iter digits2_pos]. rewrite Pos2Z.inj_succ. split; lia.
  - rewrite Pos.iter_succ. cbn [digits2_pos].
    rewrite !Pos2Z.inj_succ, Z.pow_succ_r by lia.
    destruct IH as [IH1 IH2]. rewrite Pos2Z.inj_xO. split; lia.
Qed.

Lemma shl_align_spec mx ex ex' :
  let mz := fst (shl_align mx ex ex') in
  let ez := snd (shl_align mx ex ex') in
  ez = Z.min ex ex'
  /\ Z.pos mz = Z.pos mx * 2 ^ (ex - ez)
  /\ Zdigits2 (Z.pos mz) + ez = Zdigits2 (Z.pos mx) + ex.
Proof.
  unfold shl_align.
  destruct (ex' - ex) as [|d|d] eqn:E; cbn [fst snd Zdigits2].
  - replace (ex - ex) with 0 by lia. cbn. lia.
  - replace (ex - ex) with 0 by lia. cbn. lia.
  - destruct (iter_xO mx d) as [H1 H2].
    replace (ex - ex') with (Z.pos d) by lia. lia.
Qed.

Lemma aligned_value s mx ex mz ez :
  ez <= ex -> Z.pos mz = Z.pos mx * 2 ^ (ex - ez) ->
  (IZR (cond_Zopp s (Z.pos mz)) * powerRZ 2 ez
   = IZR (cond_Zopp s (Z.pos mx)) * powerRZ 2 ex)%R.
Proof.
  intros Hle Hm.
  assert (Hp : powerRZ 2 ex = (powerRZ 2 (ex - ez) * powerRZ 2 ez)%R).
  { rewrite <- pow2_add. f_equal. lia. }
  rewrite !IZR_cond_Zopp, Hm, mult_IZR, Hp.
  rewrite <- pow2_IZR by lia.
  destruct s; ring.
Qed.

(** [binary_round] rounds [(-1)^s * m * 2^e]. *)
Lemma binary_round_R s m e B E :
  Zdigits2 (Z.pos m) + e <= B ->
  fexp (B + 1) <= E -> E <= emax - prec ->
  let x := binary_round prec emax s m e in
  is_finite x = true
  /\ (Rabs (SF2R x - IZR (cond_Zopp s (Z.pos m)) * powerRZ 2 e)
      <= 2 * powerRZ 2 E)%R
  /\ exponent_le x E.
Proof.
  intros HB HE Hmax x. subst x. unfold binary_round.
  destruct (shl_align_spec m e (fexp (Z.pos (digits2_pos m) + e)))
    as (Hez & Hmz & Hdig).
  destruct (shl_align m e (fexp (Z.pos (digits2_pos m) + e))) as [mz ez].
  cbn [fst snd] in Hez, Hmz, Hdig.
  rewrite <- (aligned_value s m e mz ez) by lia.
  apply (binary_round_aux_R s mz ez B E); [lia | | exact Hmax].
  pose proof (fexp_mono (Z.pos (digits2_pos m) + e) (B + 1)).
  cbn [Zdigits2] in HB. lia.
Qed.

(** A significand that fits is not rounded. *)
Lemma binary_round_aux_exact s mx e :
  fexp (Zdigits2 (Z.pos mx) + e) <= e ->
  binary_round_aux prec emax s (Z.pos mx) e loc_Exact = finish prec emax s (Z.pos mx) e.
Proof.
  intros H. unfold binary_round_aux.
  assert (S1 : shr_fexp prec emax (Z.pos mx) e loc_Exact
               = (shr_record_of_loc (Z.pos mx) loc_Exact, e)).
  { unfold shr_fexp, shr.
    destruct (fexp (Zdigits2 (Z.pos mx) + e) - e) eqn:E; try reflexivity. lia. }
  rewrite S1. cbn [shr_record_of_loc shr_m loc_of_shr_record
                   round_nearest_even].
  rewrite S1. reflexivity.
Qed.

Lemma binary_round_exact s m e :
  fexp (Zdigits2 (Z.pos m) + e) <= e -> e <= emax - prec ->
  let x := binary_round prec emax s m e in
  is_finite x = true
  /\ SF2R x = (IZR (cond_Zopp s (Z.pos m)) * powerRZ 2 e)%R
  /\ exponent_le x e.
Proof.
  intros H Hmax x. subst x. unfold binary_round.
  destruct (shl_align_spec m e (fexp (Z.pos (digits2_pos m) + e)))
    as (Hez & Hmz & Hdig).
  destruct (shl_align m e (fexp (Z.pos (digits2_pos m) + e))) as [mz ez].
  cbn [fst snd] in Hez, Hmz, Hdig. cbn [Zdigits2] in H, Hdig.
  rewrite binary_round_aux_exact by (cbn [Zdigits2]; rewrite Hdig; lia).
  destruct (finish_R s (Z.pos mz) ez) as (Hf & Hv & He); [lia | lia |].
  rewrite Hv, (aligned_value s m e mz ez) by lia.
  repeat split; try assumption.
  unfold exponent_le in *. destruct (finish prec emax s (Z.pos mz) ez); try exact I. lia.
Qed.

(** ** The operations *)

(** An integer that fits in the significand is converted exactly. *)
Lemma of_int_R n :
  0 <= n < 2 ^ prec -> emin <= 0 <= emax - prec ->
  let x := binary_normalize prec emax n 0 false in
  is_finite x = true /\ SF2R x = IZR n /\ exponent_le x 0.
Proof.
  intros Hn Hemin x. subst x. unfold binary_normalize.
  destruct n as [|p|p]; [| | lia].
  - cbn. repeat split.
  - destruct (binary_round_exact false p 0) as (Hf & Hv & He); [| lia |].
    + assert (Zdigits2 (Z.pos p) <= prec) by (apply Zdigits2_le; lia).
      unfold SpecFloat.fexp, SpecFloat.emin in *. lia.
    + rewrite Hv. cbn [cond_Zopp powerRZ]. repeat split; try assumption. ring.
Qed.

Lemma SFmul_R x y B E Ex Ey :
  is_finite x = true -> is_finite y = true ->
  (Rabs (SF2R x * SF2R y) < powerRZ 2 B)%R ->
  exponent_le x Ex -> exponent_le y Ey ->
  Z.max (Ex + Ey) (fexp (B + 1)) <= E -> E <= emax - prec ->
  is_finite (SFmul prec emax x y) = true
  /\ (Rabs (SF2R (SFmul prec emax x y) - SF2R x * SF2R y)
      <= 2 * powerRZ 2 E)%R.
Proof.
  intros Hx Hy Hmag Hex Hey HE Hmax.
  assert (Hz : (0 <= 2 * powerRZ 2 E)%R) by (pose proof (pow2_pos E); lra).
  destruct x as [sx | sx | | sx mx ex]; try discriminate;
    destruct y as [sy | sy | | sy my ey]; try discriminate;
    cbn [SFmul SF2R is_finite].
  - split; [reflexivity|]. now rewrite Rmult_0_l, Rminus_0_r, Rabs_R0.
  - split; [reflexivity|]. now rewrite Rmult_0_l, Rminus_0_r, Rabs_R0.
  - split; [reflexivity|]. now rewrite Rmult_0_r, Rminus_0_r, Rabs_R0.
  - cbn [exponent_le] in Hex, Hey. cbn [SF2R] in Hmag.
    assert (Hv : (IZR (cond_Zopp sx (Z.pos mx)) * powerRZ 2 ex
                  * (IZR (cond_Zopp sy (Z.pos my)) * powerRZ 2 ey)
                  = IZR (cond_Zopp (xorb sx sy) (Z.pos (mx * my)))
                    * powerRZ 2 (ex + ey))%R).
    { rewrite !IZR_cond_Zopp, pow2_add, Pos2Z.inj_mul, mult_IZR.
      destruct sx, sy; cbn [xorb]; ring. }
    rewrite Hv in *.
    destruct (binary_round_aux_R (xorb sx sy) (mx * my) (ex + ey) B E)
      as (Hf & Herr & _); [| lia | exact Hmax |].
    + apply digits_of_value.
      rewrite IZR_cond_Zopp, Rabs_mult, Rabs_cond in Hmag.
      rewrite (Rabs_pos_eq (powerRZ 2 (ex + ey))) in Hmag
        by (pose proof (pow2_pos (ex + ey)); lra).
      rewrite Rabs_pos_eq in Hmag by (apply IZR_le; lia).
      exact Hmag.
    + split; assumption.
Qed.

Lemma binary_normalize_R n e sz B E :
  (Rabs (IZR n * powerRZ 2 e) < powerRZ 2 B)%R ->
  fexp (B + 1) <= E -> E <= emax - prec ->
  let x := binary_normalize prec emax n e sz in
  is_finite x = true
  /\ (Rabs (SF2R x - IZR n * powerRZ 2 e) <= 2 * powerRZ 2 E)%R.
Proof.
  intros Hmag HE Hmax x. subst x. unfold binary_normalize.
  assert (Hz : (0 <= 2 * powerRZ 2 E)%R) by (pose proof (pow2_pos E); lra).
  rewrite Rabs_mult in Hmag.
  rewrite (Rabs_pos_eq (powerRZ 2 e)) in Hmag
    by (pose proof (pow2_pos e); lra).
  destruct n as [|p|p].
  - cbn [SF2R is_finite]. split; [reflexivity|].
    now rewrite Rmult_0_l, Rminus_0_r, Rabs_R0.
  - destruct (binary_round_R false p e B E) as (Hf & Herr & _);
      [| exact HE | exact Hmax | split; assumption].
    apply digits_of_value.
    rewrite Rabs_pos_eq in Hmag by (apply IZR_le; lia). exact Hmag.
  - destruct (binary_round_R true p e B E) as (Hf & Herr & _);
      [| exact HE | exact Hmax | split; assumption].
    apply digits_of_value.
    change (Z.neg p) with (- Z.pos p) in Hmag.
    rewrite opp_IZR, Rabs_Ropp, Rabs_pos_eq in Hmag by (apply IZR_le; lia).
    exact Hmag.
Qed.

Lemma SFsub_R x y B E :
  is_finite x = true -> is_finite y = true ->
  (Rabs (SF2R x - SF2R y) < powerRZ 2 B)%R ->
  fexp (B + 1) <= E -> E <= emax - prec ->
  is_finite (SFsub prec emax x y) = true
  /\ (Rabs (SF2R (SFsub prec emax x y) - (SF2R x - SF2R y))
      <= 2 * powerRZ 2 E)%R.
Proof.
  intros Hx Hy Hmag HE Hmax.
  assert (Hz : (0 <= 2 * powerRZ 2 E)%R) by (pose proof (pow2_pos E); lra).
  assert (Hzero : forall r : R, (Rabs (r - r) <= 2 * powerRZ 2 E)%R).
  { intros r. now rewrite Rminus_diag, Rabs_R0. }
  destruct x as [sx | sx | | sx mx ex]; try discriminate;
    destruct y as [sy | sy | | sy my ey]; try discriminate.
  - split; [now destruct sx, sy|].
    replace (SF2R (SFsub prec emax (S754_zero sx) (S754_zero sy)))
      with (SF2R (S754_zero sx) - SF2R (S754_zero sy))%R
      by (destruct sx, sy; cbn; ring).
    apply Hzero.
  - split; [reflexivity|].
    replace (SF2R (SFsub prec emax (S754_zero sx) (S754_finite sy my ey)))
      with (SF2R (S754_zero sx) - SF2R (S754_finite sy my ey))%R.
    + apply Hzero.
    + cbn [SFsub SF2R]. rewrite !IZR_cond_Zopp. destruct sy; cbn [negb]; ring.
  - split; [reflexivity|].
    replace (SF2R (SFsub prec emax (S754_finite sx mx ex) (S754_zero sy)))
      with (SF2R (S754_finite sx mx ex) - SF2R (S754_zero sy))%R.
    + apply Hzero.
    + cbn [SFsub SF2R]. ring.
  - cbn [SFsub].
    set (ez := Z.min ex ey).
    destruct (shl_align_spec mx ex ez) as (Hex1 & Hmx & _).
    destruct (shl_align_spec my ey ez) as (Hey1 & Hmy & _).
    set (ax := fst (shl_align mx ex ez)) in *.
    set (ay := fst (shl_align my ey ez)) in *.
    replace (Z.min ex ez) with ez in * by (subst ez; lia).
    replace (Z.min ey ez) with ez in * by (subst ez; lia).
    rewrite Hex1 in Hmx. rewrite Hey1 in Hmy.
    assert (Hv : (SF2R (S754_finite sx mx ex) - SF2R (S754_finite sy my ey)
                  = IZR (cond_Zopp sx (Z.pos ax) - cond_Zopp sy (Z.pos ay))
                    * powerRZ 2 ez)%R).
    { cbn [SF2R]. rewrite minus_IZR, Rmult_minus_distr_r.
      rewrite (aligned_value sx mx ex ax ez) by (subst ez; lia).
      rewrite (aligned_value sy my ey ay ez) by (subst ez; lia).
      reflexivity. }
    rewrite Hv in *.
    now apply (binary_normalize_R _ ez false B E).
Qed.

End Rounding.

(** Narrowing to a format. *)
Lemma convert_R prec emax x B E :
  0 < prec ->
  is_finite x = true ->
  (Rabs (SF2R x) < powerRZ 2 B)%R ->
  fexp prec emax (B + 1) <= E -> E <= emax - prec ->
  let y := match x with
           | S754_finite s m e => binary_round prec emax s m e
           | _ => x
           end in
  is_finite y = true
  /\ (Rabs (SF2R y - SF2R x) <= 2 * powerRZ 2 E)%R.
Proof.
  intros Hprec Hx Hmag HE Hmax y. subst y.
  assert (Hz : (0 <= 2 * powerRZ 2 E)%R) by (pose proof (pow2_pos E); lra).
  destruct x as [sx | sx | | sx mx ex]; try discriminate.
  - split; [reflexivity|]. now rewrite Rminus_diag, Rabs_R0.
  - cbn [SF2R] in *.
    destruct (binary_round_R prec emax Hprec sx mx ex B E)
      as (Hf & Herr & _); [| exact HE | exact Hmax | split; assumption].
    apply digits_of_value.
    rewrite IZR_cond_Zopp, Rabs_mult, Rabs_cond in Hmag.
    rewrite (Rabs_pos_eq (powerRZ 2 ex)) in Hmag
      by (pose proof (pow2_pos ex); lra).
    rewrite Rabs_pos_eq in Hmag by (apply IZR_le; lia).
    exact Hmag.
Qed.

End FloatFacts.

(* ================================================================== *)
(** * Properties of the driver *)
(* ================================================================== *)

Section DriverFacts.

Context {B : Type} {TW : Wire.TwoWire B}.
Variable dbl : FP.format.

Ltac step :=
  unfold i2c_begin, i2c_setClock, i2c_beginTransmission, i2c_write,
    i2c_endTransmission, i2c_requestFrom, i2c_read;
  unfold bind, ret, when, raise, with_self, member, call, delay, assign.

Ltac simp :=
  cbn -[Z.shiftr Z.shiftl Z.land Z.lor Z.eqb Z.add Z.mul Z.to_nat
        to_uint8 to_uint16 CRC.crc8 peek skipn].

Ltac simp_in H :=
  cbn -[Z.shiftr Z.shiftl Z.land Z.lor Z.eqb Z.add Z.mul Z.to_nat
        to_uint8 to_uint16 CRC.crc8 peek skipn] in H.

Ltac innermost x :=
  lazymatch x with
  | context [let (_, _) := _ in _] => fail
  | context [if _ then _ else _] => fail
  | _ => idtac
  end.

Ltac split_pairs :=
  repeat (match goal with
          | |- context [let (_, _) := ?x in _] => innermost x; destruct x
          | |- context [if ?c then _ else _] => innermost c; destruct c
          end; simp).

(** ** Computations that only OR into the accumulator *)

Lemma accumulates_ret {A} (a : A) : accumulates (B := B) (ret a).
Proof. intros e w. reflexivity. Qed.

Lemma accumulates_bind {A C} (m : M B A) (k : A -> M B C) :
  accumulates m -> (forall a, accumulates (k a)) -> accumulates (bind m k).
Proof.
  intros Hm Hk e w. unfold bind.
  rewrite Hm. destruct (m w) as [a w1]. cbn [fst snd].
  rewrite Hk. now destruct (k a w1).
Qed.

Lemma accumulates_raise f : accumulates (B := B) (raise f).
Proof.
  intros e w. unfold raise, with_self, bump, with_error_code. cbn.
  now rewrite Z.lor_assoc.
Qed.

Lemma accumulates_when c (m : M B unit) :
  accumulates m -> accumulates (when c m).
Proof. destruct c; [trivial | intros _; apply accumulates_ret]. Qed.

Lemma accumulates_member {A} (f : TD_SHT31 -> A) :
  (forall x s, f (set_error_code x s) = f s) ->
  accumulates (B := B) (member f).
Proof.
  intros Hf e w. unfold member, bump, with_error_code. cbn.
  now rewrite Hf.
Qed.

Lemma accumulates_with_self (f : TD_SHT31 -> TD_SHT31) :
  (forall x s, f (set_error_code x s) = set_error_code x (f s)) ->
  (forall s, _error_code (f s) = _error_code s) ->
  accumulates (B := B) (with_self f).
Proof.
  intros Hf He e w. unfold with_self, bump, with_error_code. cbn.
  now rewrite Hf, He.
Qed.

Lemma accumulates_call {A} ev (f : B -> A * B) : accumulates (call ev f).
Proof.
  intros e w. unfold call, bump, with_error_code. cbn.
  now destruct (f (wire w)).
Qed.

Lemma accumulates_delay ms : accumulates (B := B) (delay ms).
Proof. intros e w. reflexivity. Qed.

Lemma accumulates_assign p v : accumulates (B := B) (assign p v).
Proof. intros e w. reflexivity. Qed.

Create HintDb accum discriminated.
Hint Resolve accumulates_ret accumulates_raise accumulates_when
  accumulates_call accumulates_delay accumulates_assign : accum.
Hint Extern 1 (accumulates (member _)) =>
       (apply accumulates_member; reflexivity) : accum.
Hint Extern 1 (accumulates (with_self _)) =>
       (apply accumulates_with_self; reflexivity) : accum.
Hint Extern 2 (accumulates (bind _ _)) =>
       (apply accumulates_bind; [| intro]) : accum.
Hint Extern 3 (accumulates (if ?c then _ else _)) => destruct c : accum.
Hint Extern 3 (accumulates (let (_, _) := ?r in _)) => destruct r : accum.

Ltac accum :=
  unfold i2c_begin, i2c_setClock, i2c_beginTransmission, i2c_write,
    i2c_endTransmission, i2c_requestFrom, i2c_read;
  auto 30 with accum.

Lemma accumulates_writeCommand c : accumulates (writeCommand c).
Proof. unfold writeCommand. accum. Qed.

Lemma accumulates_readBytes_loop n :
  forall i buffer, accumulates (readBytes_loop n i buffer).
Proof.
  induction n as [|n IH]; intros i buffer; cbn [readBytes_loop]; accum.
Qed.

Hint Resolve accumulates_writeCommand accumulates_readBytes_loop : accum.

Lemma accumulates_readBytes buffer len : accumulates (readBytes buffer len).
Proof. unfold readBytes. accum. Qed.

Hint Resolve accumulates_readBytes : accum.

Lemma accumulates_readSensorData : accumulates (readSensorData dbl).
Proof. unfold readSensorData. accum. Qed.

Hint Resolve accumulates_readSensorData : accum.

Lemma accumulates_resetSensor c : accumulates (resetSensor c).
Proof. unfold resetSensor. accum. Qed.

Lemma accumulates_runSingleShot c fT fH :
  accumulates (runSingleShot dbl c fT fH).
Proof. unfold runSingleShot. accum. Qed.

Lemma accumulates_clearSensorStatus : accumulates clearSensorStatus.
Proof. unfold clearSensorStatus. accum. Qed.

Lemma accumulates_readSensorStatus : accumulates readSensorStatus.
Proof. unfold readSensorStatus. accum. Qed.

Lemma accumulates_isSensorConnected : accumulates isSensorConnected.
Proof. unfold isSensorConnected. accum. Qed.

Hint Resolve accumulates_resetSensor : accum.

Lemma accumulates_begin : accumulates begin.
Proof. unfold begin. accum. Qed.

Lemma accumulates_set_defaults u t :
  accumulates (B := B) (set_defaults u t).
Proof. unfold set_defaults. accum. Qed.

Lemma accumulates_perform op : accumulates (perform dbl op).
Proof.
  intros e w. unfold perform. cbn [fst snd]. f_equal.
  destruct op.
  - now rewrite accumulates_begin.
  - now rewrite accumulates_isSensorConnected.
  - now rewrite accumulates_set_defaults.
  - now rewrite accumulates_resetSensor.
  - now rewrite accumulates_runSingleShot.
  - now rewrite accumulates_clearSensorStatus.
  - now rewrite accumulates_readSensorStatus.
Qed.

Lemma bump_drained (w : World B) :
  bump (_error_code (self w)) (with_error_code NO_ERROR w) = w.
Proof.
  destruct w as [[a e h t u c] b tr hp].
  unfold bump, with_error_code, set_error_code, NO_ERROR. cbn.
  now rewrite Z.lor_0_r.
Qed.

(** Every call ORs its own faults into what the accumulator holds. *)
Lemma perform_error_code op (w : World B) :
  _error_code (self (snd (perform dbl op w)))
  = Z.lor (_error_code (self w)) (faults_of dbl op w).
Proof.
  rewrite <- (bump_drained w) at 1.
  rewrite accumulates_perform. reflexivity.
Qed.

(** ** Computations that leave measurement and configuration alone *)

Lemma transparent_ret {A} (a : A) : transparent (B := B) (ret a).
Proof. intros w. repeat split. Qed.

Lemma transparent_bind {A C} (m : M B A) (k : A -> M B C) :
  transparent m -> (forall a, transparent (k a)) -> transparent (bind m k).
Proof.
  intros Hm Hk w. unfold bind.
  specialize (Hm w). destruct (m w) as [a w1]. cbn [snd] in Hm.
  specialize (Hk a w1).
  unfold same_measurement, same_configuration in *.
  intuition congruence.
Qed.

Lemma transparent_raise f : transparent (B := B) (raise f).
Proof. intros w. repeat split. Qed.

Lemma transparent_when c (m : M B unit) :
  transparent m -> transparent (when c m).
Proof. destruct c; [trivial | intros _; apply transparent_ret]. Qed.

Lemma transparent_member {A} (f : TD_SHT31 -> A) :
  transparent (B := B) (member f).
Proof. intros w. repeat split. Qed.

Lemma transparent_call {A} ev (f : B -> A * B) : transparent (call ev f).
Proof. intros w. unfold call. destruct (f (wire w)). repeat split. Qed.

Lemma transparent_delay ms : transparent (B := B) (delay ms).
Proof. intros w. repeat split. Qed.

Create HintDb frame discriminated.
Hint Resolve transparent_ret transparent_raise transparent_when
  transparent_member transparent_call transparent_delay : frame.
Hint Extern 2 (transparent (bind _ _)) =>
       (apply transparent_bind; [| intro]) : frame.
Hint Extern 3 (transparent (if ?c then _ else _)) => destruct c : frame.

Ltac frame :=
  unfold i2c_begin, i2c_setClock, i2c_beginTransmission, i2c_write,
    i2c_endTransmission, i2c_requestFrom, i2c_read;
  auto 30 with frame.

Lemma transparent_writeCommand c : transparent (writeCommand c).
Proof. unfold writeCommand. frame. Qed.

Lemma transparent_readBytes_loop n :
  forall i buffer, transparent (readBytes_loop n i buffer).
Proof.
  induction n as [|n IH]; intros i buffer; cbn [readBytes_loop]; frame.
Qed.

Hint Resolve transparent_readBytes_loop : frame.

Lemma transparent_readBytes buffer len : transparent (readBytes buffer len).
Proof. unfold readBytes. frame. Qed.

(** ** What the helpers leave in the trace *)

Lemma delayed_app tr tr' : delayed (tr ++ tr') = delayed tr + delayed tr'.
Proof.
  induction tr as [|e tr IH]; [reflexivity|].
  destruct e; cbn [app delayed]; lia.
Qed.

Lemma writeCommand_trace c (w : World B) :
  trace (snd (writeCommand c w))
  = trace w ++ [EvBeginTransmission (_i2c_device_address (self w));
                EvWrite (command_bytes c); EvEndTransmission].
Proof.
  unfold writeCommand, command_bytes. step. simp.
  split_pairs; simp; now rewrite <- !app_assoc.
Qed.

Lemma readBytes_loop_trace n :
  forall i buffer (w : World B),
    trace (snd (readBytes_loop n i buffer w)) = trace w ++ repeat EvRead n.
Proof.
  induction n as [|n IH]; intros i buffer w; cbn [readBytes_loop repeat].
  - unfold ret. cbn. now rewrite app_nil_r.
  - step. destruct (Wire.read (wire w)) as [x b1].
    rewrite IH. simp. now rewrite <- app_assoc.
Qed.

Lemma readBytes_trace buffer len (w : World B) :
  exists reads,
    trace (snd (readBytes buffer len w))
    = trace w ++ EvRequestFrom (_i2c_device_address (self w)) len :: reads
    /\ Forall (eq EvRead) reads.
Proof.
  unfold readBytes. step. simp.
  destruct (Wire.requestFrom (_i2c_device_address (self w)) len (wire w))
    as [r b1].
  destruct (r =? len).
  - match goal with
    | |- context [readBytes_loop ?n ?i ?bf ?w0] =>
        pose proof (readBytes_loop_trace n i bf w0) as H;
        destruct (readBytes_loop n i bf w0) as [bf' w1]
    end.
    simp. simp_in H. exists (repeat EvRead (Z.to_nat len)). split.
    + rewrite H, <- app_assoc. reflexivity.
    + apply Forall_forall. intros x Hx. now apply repeat_spec in Hx.
  - simp. exists []. split; [reflexivity | constructor].
Qed.

(** ** What the helpers return *)

(** [writeCommand] fails exactly when [endTransmission] does not
    return 0. *)
Lemma writeCommand_result c (w : World B) :
  fst (writeCommand c w)
  = (fst (Wire.endTransmission
            (snd (Wire.write (command_bytes c)
                    (Wire.beginTransmission
                       (_i2c_device_address (self w)) (wire w))))) =? 0).
Proof.
  unfold writeCommand, command_bytes. step. simp.
  destruct (Wire.write [to_uint8 (Z.shiftr c 8); Z.land c 255]
              (Wire.beginTransmission (_i2c_device_address (self w))
                 (wire w))) as [n b1].
  simp. destruct (negb (n =? 2)); simp;
    destruct (Wire.endTransmission b1) as [r b2]; simp;
    destruct (r =? 0); reflexivity.
Qed.

(** [readBytes] fails exactly when [requestFrom] does not return
    [len]. *)
Lemma readBytes_result buffer len (w : World B) :
  fst (fst (readBytes buffer len w))
  = (fst (Wire.requestFrom (_i2c_device_address (self w)) len (wire w))
     =? len).
Proof.
  unfold readBytes. step. simp.
  destruct (Wire.requestFrom (_i2c_device_address (self w)) len (wire w))
    as [r b1].
  simp. destruct (r =? len); simp; [|reflexivity].
  match goal with
  | |- context [readBytes_loop ?n ?i ?bf ?w0] =>
      destruct (readBytes_loop n i bf w0)
  end.
  reflexivity.
Qed.

(** ** What a successful read leaves in the buffer and in the object *)

Lemma poke_bytes buffer : forall i v,
  Forall is_byte buffer -> is_byte v -> Forall is_byte (poke buffer i v).
Proof.
  induction buffer as [|b rest IH]; intros i v Hb Hv; [constructor|].
  inversion Hb; subst. destruct i; cbn [poke]; constructor; auto.
Qed.

Lemma peek_byte buffer i : Forall is_byte buffer -> is_byte (peek buffer i).
Proof.
  intros Hb. unfold peek. revert i.
  induction Hb as [|b rest H Hrest IH]; intros [|i]; cbn [nth];
    try (unfold is_byte; lia); auto.
Qed.

Lemma readBytes_loop_bytes n :
  forall i buffer (w : World B),
    Forall is_byte buffer ->
    Forall is_byte (fst (readBytes_loop n i buffer w))
    /\ self (snd (readBytes_loop n i buffer w)) = self w.
Proof.
  induction n as [|n IH]; intros i buffer w Hb; cbn [readBytes_loop].
  - now split.
  - step. destruct (Wire.read (wire w)) as [x b1].
    match goal with
    | |- context [readBytes_loop n ?j ?bf ?w0] =>
        destruct (IH j bf w0) as [H1 H2]
    end.
    + apply poke_bytes; [exact Hb | apply CRCFacts.to_uint8_byte].
    + split; [exact H1 | exact H2].
Qed.

Lemma readBytes_ok buffer len (w w1 : World B) buffer' :
  Forall is_byte buffer ->
  readBytes buffer len w = (true, buffer', w1) ->
  Forall is_byte buffer' /\ self w1 = self w.
Proof.
  intros Hb. unfold readBytes. step. simp.
  destruct (Wire.requestFrom (_i2c_device_address (self w)) len (wire w))
    as [r b1].
  destruct (r =? len); simp.
  - match goal with
    | |- context [readBytes_loop ?n ?i ?bf ?w0] =>
        destruct (readBytes_loop_bytes n i bf w0 Hb) as [H1 H2];
        destruct (readBytes_loop n i bf w0) as [bf' w2]
    end.
    simp_in H1. simp_in H2. intros E. inversion E; subst. now split.
  - discriminate.
Qed.

Lemma code_at_uint16 buffer i :
  Forall is_byte buffer ->
  to_uint16 (Z.shiftl (peek buffer i) 8 + peek buffer (S i))
  = code_at buffer i.
Proof.
  intros Hb. unfold code_at, to_uint16.
  pose proof (peek_byte buffer i Hb) as H0.
  pose proof (peek_byte buffer (S i) Hb) as H1.
  unfold is_byte in *.
  rewrite Z.shiftl_mul_pow2 by lia. change (2 ^ 8) with 256.
  rewrite Z.mod_small; lia.
Qed.

Lemma zeros_bytes n : Forall is_byte (repeat 0 n).
Proof.
  apply Forall_forall. intros x Hx. apply repeat_spec in Hx. subst.
  unfold is_byte. lia.
Qed.

(** ** The claims on the driver *)

Lemma readSensorData_unfold (w w1 : World B) buffer ok :
  readBytes [0; 0; 0; 0; 0; 0] 6 w = (ok, buffer, w1) ->
  readSensorData dbl w
  = if negb ok then (false, w1)
    else if _useCRC (self w1)
            && negb (peek buffer 2 =? CRC.crc8 buffer 2)
         then (false, with_error_code
                        (Z.lor (_error_code (self w1)) ERROR_CRC_CHECK) w1)
         else if _useCRC (self w1)
                 && negb (peek buffer 5 =? CRC.crc8 (skipn 3 buffer) 2)
              then (false, with_error_code
                             (Z.lor (_error_code (self w1)) ERROR_CRC_CHECK)
                             w1)
              else
                (true,
                 {| self :=
                      set_humidity
                        (humidity_of dbl
                           (to_uint16 (Z.shiftl (peek buffer 3) 8
                                       + peek buffer 4)))
                        (set_temperature
                           (if _tUnit (self w1)
                            then celsius_of dbl
                                   (to_uint16 (Z.shiftl (peek buffer 0) 8
                                               + peek buffer 1))
                            else farenheit_of dbl
                                   (to_uint16 (Z.shiftl (peek buffer 0) 8
                                               + peek buffer 1)))
                           (self w1));
                    wire := wire w1; trace := trace w1; heap := heap w1 |}).
Proof.
  intros E. unfold readSensorData. unfold bind at 1. rewrite E.
  destruct ok; [|reflexivity].
  step. simp.
  destruct (_useCRC (self w1)); simp.
  - destruct (peek buffer 2 =? CRC.crc8 buffer 2); simp; [|reflexivity].
    destruct (peek buffer 5 =? CRC.crc8 (skipn 3 buffer) 2); simp;
      reflexivity.
  - reflexivity.
Qed.

Lemma corrupted_at_eqb buffer i :
  corrupted_at buffer i
  <-> negb (peek buffer (i + 2) =? CRC.crc8 (skipn i buffer) 2) = true.
Proof.
  unfold corrupted_at. rewrite negb_true_iff, Z.eqb_neq. reflexivity.
Qed.

Lemma readSensorData_fails (w : World B) :
  fst (readSensorData dbl w) = false ->
  same_measurement w (snd (readSensorData dbl w)).
Proof.
  destruct (readBytes [0; 0; 0; 0; 0; 0] 6 w) as [[ok buffer] w1] eqn:E.
  rewrite (readSensorData_unfold w w1 buffer ok E).
  destruct (transparent_readBytes [0; 0; 0; 0; 0; 0] 6 w) as [Hm _].
  rewrite E in Hm. cbn [snd] in Hm.
  destruct ok; cbn [negb]; [|intros _; exact Hm].
  destruct (_useCRC (self w1) && negb (peek buffer 2 =? CRC.crc8 buffer 2)).
  { intros _. exact Hm. }
  destruct (_useCRC (self w1)
            && negb (peek buffer 5 =? CRC.crc8 (skipn 3 buffer) 2)).
  { intros _. exact Hm. }
  cbn [fst]. discriminate.
Qed.

(** C2, as amended.  In the measurement read the two checksums are
    validated if and only if the enforcement is enabled: once the six
    bytes are read, [readSensorData] fails exactly when the
    enforcement is on and one of the trailing bytes does not match; it
    then records the CRC fault and surfaces no value, and otherwise it
    records no fault and stores the values converted from the bytes
    (with the enforcement off, also from corrupted bytes).  The status
    read validates its checksum whatever the configuration: once the
    three bytes are read, a mismatch returns 0xFFFF and records the CRC
    fault. *)
Theorem crc_gating_of_measurement_not_of_status
  (w w1 : World B) (buffer : list Z)
  (v v0 v1 : World B) (status : list Z) :
  readBytes [0; 0; 0; 0; 0; 0] 6 w = (true, buffer, w1) ->
  writeCommand CMD_READ_STATUS v = (true, v0) ->
  readBytes [0; 0; 0] 3 v0 = (true, status, v1) ->
  corrupted_at status 0 ->
  let r := readSensorData dbl w in
  let s := readSensorStatus v in
  (fst r = false
   <-> _useCRC (self w) = true
       /\ (corrupted_at buffer 0 \/ corrupted_at buffer 3))
  /\ (fst r = false ->
      _error_code (self (snd r))
      = Z.lor (_error_code (self w)) ERROR_CRC_CHECK
      /\ same_measurement w (snd r))
  /\ (fst r = true ->
      _error_code (self (snd r)) = _error_code (self w)
      /\ _temperature (self (snd r))
         = (if _tUnit (self w) then celsius_of dbl (code_at buffer 0)
            else farenheit_of dbl (code_at buffer 0))
      /\ _humidity (self (snd r)) = humidity_of dbl (code_at buffer 3))
  /\ fst s = 0xFFFF
  /\ _error_code (self (snd s))
     = Z.lor (_error_code (self v0)) ERROR_CRC_CHECK.
Proof.
  intros E Ew Es Hbad r s.
  assert (Hz6 : Forall is_byte [0; 0; 0; 0; 0; 0]) by apply (zeros_bytes 6).
  assert (Hz3 : Forall is_byte [0; 0; 0]) by apply (zeros_bytes 3).
  destruct (readBytes_ok _ _ _ _ _ Hz6 E) as [Hb Hs].
  destruct (readBytes_ok _ _ _ _ _ Hz3 Es) as [Hb' Hs'].
  destruct (transparent_readBytes [0; 0; 0; 0; 0; 0] 6 w) as [Hm _].
  rewrite E in Hm. cbn [snd] in Hm.
  (* the status read *)
  assert (S : s = (0xFFFF,
                   with_error_code
                     (Z.lor (_error_code (self v1)) ERROR_CRC_CHECK) v1)).
  { subst s. unfold readSensorStatus. unfold bind at 1. rewrite Ew.
    cbn [negb]. unfold bind at 1. rewrite Es. cbn [negb].
    apply corrupted_at_eqb in Hbad. cbn [Nat.add] in Hbad.
    change (skipn 0 status) with status in Hbad.
    rewrite Hbad. reflexivity. }
  rewrite S. clear S s. rewrite <- Hs'.
  (* the measurement read *)
  subst r. rewrite (readSensorData_unfold w w1 buffer true E).
  rewrite !code_at_uint16 by exact Hb. rewrite Hs.
  pose proof (corrupted_at_eqb buffer 0) as C0.
  pose proof (corrupted_at_eqb buffer 3) as C3.
  cbn [Nat.add] in C0, C3. change (skipn 0 buffer) with buffer in C0.
  unfold same_measurement in *.
  destruct (_useCRC (self w));
    destruct (negb (peek buffer 2 =? CRC.crc8 buffer 2));
    destruct (negb (peek buffer 5 =? CRC.crc8 (skipn 3 buffer) 2));
    cbn; rewrite ?Hs; intuition (discriminate || congruence).
Qed.

(** [clearSensorStatus] returns [true] whatever [writeCommand]
    returns. *)
Lemma clearSensorStatus_true (w : World B) :
  fst (clearSensorStatus w) = true.
Proof.
  unfold clearSensorStatus. unfold bind.
  destruct (writeCommand CMD_CLEAR_STATUS w) as [[|] w1]; reflexivity.
Qed.

(** C5. [readSensorStatus] returns 0xFFFF when the command is not
    written, when fewer than three bytes are read and when the
    checksum does not match; otherwise it returns the 16-bit word made
    of the two data bytes, the first one high. *)
Theorem readSensorStatus_word_or_sentinel (w : World B) :
  let (written, w0) := writeCommand CMD_READ_STATUS w in
  let '(ok, buffer, w1) := readBytes [0; 0; 0] 3 w0 in
  fst (readSensorStatus w)
  = if written && ok && (peek buffer 2 =? CRC.crc8 buffer 2)
    then code_at buffer 0
    else 0xFFFF.
Proof.
  destruct (writeCommand CMD_READ_STATUS w) as [written w0] eqn:Ew.
  destruct (readBytes [0; 0; 0] 3 w0) as [[ok buffer] w1] eqn:Er.
  unfold readSensorStatus. unfold bind at 1. rewrite Ew.
  destruct written; cbn [negb andb]; [|reflexivity].
  unfold bind at 1. rewrite Er.
  destruct ok; cbn [negb andb]; [|reflexivity].
  destruct (peek buffer 2 =? CRC.crc8 buffer 2); cbn [negb];
    [|reflexivity].
  unfold ret. cbn [fst].
  destruct (readBytes_ok _ _ _ _ _ (zeros_bytes 3) Er) as [Hb _].
  pose proof (peek_byte buffer 0 Hb) as H0.
  pose proof (peek_byte buffer 1 Hb) as H1.
  unfold code_at, to_uint16, is_byte in *.
  rewrite Z.shiftl_mul_pow2 by lia. change (2 ^ 8) with 256.
  rewrite (Z.mod_small (peek buffer 0 * 256)) by lia.
  rewrite Z.mod_small; lia.
Qed.

(** C6. [getLastError] returns the accumulator and resets it, and
    nothing else changes; after two calls made on a drained
    accumulator it returns the union of the faults of the two calls,
    and a second drain returns zero. *)
Theorem getLastError_drains_union (op1 op2 : Operation) (w : World B) :
  let w0 := snd (getLastError w) in
  let w1 := snd (perform dbl op1 w0) in
  let w2 := snd (perform dbl op2 w1) in
  getLastError w = (_error_code (self w), with_error_code NO_ERROR w)
  /\ fst (getLastError w2)
     = Z.lor (faults_of dbl op1 w0) (faults_of dbl op2 w1)
  /\ fst (getLastError (snd (getLastError w2))) = 0.
Proof.
  intros w0 w1 w2. repeat split.
  subst w2 w1. unfold getLastError at 1. step. cbn [fst].
  rewrite !perform_error_code. reflexivity.
Qed.

(** C7. A command that is neither [CMD_SOFT_RESET] nor
    [CMD_GCALL_RESET] makes [resetSensor] return [false] and OR the
    wrong-command fault into the accumulator; the bus is not called:
    its state and the trace are what they were. *)
Theorem resetSensor_rejects_without_bus (command : Z) (w : World B) :
  command <> CMD_SOFT_RESET ->
  command <> CMD_GCALL_RESET ->
  let r := resetSensor command w in
  fst r = false
  /\ _error_code (self (snd r))
     = Z.lor (_error_code (self w)) ERROR_WRONG_COMMAND
  /\ wire (snd r) = wire w
  /\ trace (snd r) = trace w.
Proof.
  intros H1 H2 r. subst r. unfold resetSensor.
  apply Z.eqb_neq in H1, H2. rewrite H1, H2.
  repeat split.
Qed.

Lemma single_shot_dec c :
  negb (c =? CMD_SS_CSD_HIGH) && negb (c =? CMD_SS_CSD_MEDIUM)
  && negb (c =? CMD_SS_CSD_LOW) = false
  <-> In c single_shot_commands.
Proof.
  unfold single_shot_commands. cbn [In].
  destruct (Z.eqb_spec c CMD_SS_CSD_HIGH);
    destruct (Z.eqb_spec c CMD_SS_CSD_MEDIUM);
    destruct (Z.eqb_spec c CMD_SS_CSD_LOW); cbn;
    intuition (congruence || discriminate).
Qed.

Lemma delay_of_command c :
  In c single_shot_commands ->
  (if c =? CMD_SS_CSD_HIGH then 16
   else if c =? CMD_SS_CSD_MEDIUM then 7
        else if c =? CMD_SS_CSD_LOW then 5 else 16)
  = minimum_delay c.
Proof.
  unfold minimum_delay, single_shot_commands. cbn [In].
  intros [H | [H | [H | []]]]; subst; reflexivity.
Qed.

(** [runSingleShot] on a single-shot command, by what its steps
    return. *)
Lemma runSingleShot_unfold c fT fH (w w1 : World B) :
  In c single_shot_commands ->
  writeCommand c w = (true, w1) ->
  runSingleShot dbl c fT fH w
  = let (ok, w3) := readSensorData dbl (snd (delay (minimum_delay c) w1)) in
    if ok
    then (true,
          {| self := self w3; wire := wire w3; trace := trace w3;
             heap := store (store (heap w3) fT (_temperature (self w3)))
                           fH (_humidity (self w3)) |})
    else (false, w3).
Proof.
  intros Hc Ew. unfold runSingleShot.
  apply single_shot_dec in Hc as Hc'. rewrite Hc'.
  unfold bind at 1. rewrite Ew. cbn [negb].
  rewrite (delay_of_command c Hc).
  unfold bind at 1. unfold delay at 1. cbn [snd].
  unfold bind at 1.
  destruct (readSensorData dbl _) as [[|] w3]; reflexivity.
Qed.

(** C8, as amended.  When a step of [runSingleShot] fails (invalid
    command, failed write, short read, checksum mismatch while the
    checksums are enforced), and whenever the call returns [false],
    the call returns [false] and the temperature and the humidity of
    the session and the caller's variables are what they were: while
    the checksums are enforced, partial or corrupt data is not
    surfaced. *)
Theorem runSingleShot_failure_keeps_measurement
  (u16Command : Z) (fT fH : pointer) (w : World B) :
  failed_step u16Command w
  \/ fst (runSingleShot dbl u16Command fT fH w) = false ->
  fst (runSingleShot dbl u16Command fT fH w) = false
  /\ same_measurement w (snd (runSingleShot dbl u16Command fT fH w)).
Proof.
  intros H.
  destruct (negb (u16Command =? CMD_SS_CSD_HIGH)
            && negb (u16Command =? CMD_SS_CSD_MEDIUM)
            && negb (u16Command =? CMD_SS_CSD_LOW)) eqn:Hc.
  { (* invalid command *)
    unfold runSingleShot. rewrite Hc. repeat split. }
  apply single_shot_dec in Hc.
  destruct (transparent_writeCommand u16Command w) as [Hm [_ [Hu _]]].
  destruct (writeCommand u16Command w) as [[|] w1] eqn:Ew.
  2:{ (* failed write *)
    assert (E : runSingleShot dbl u16Command fT fH w = (false, w1)).
    { unfold runSingleShot.
      apply single_shot_dec in Hc. rewrite Hc.
      unfold bind at 1. rewrite Ew. reflexivity. }
    rewrite E. split; [reflexivity | exact Hm]. }
  cbn [snd] in Hm, Hu.
  rewrite (runSingleShot_unfold _ fT fH w w1 Hc Ew) in *.
  unfold failed_step in H. rewrite Ew in H. cbn [fst snd] in H.
  set (w2 := snd (delay (minimum_delay u16Command) w1)) in *.
  assert (Hm2 : same_measurement w w2).
  { unfold same_measurement in *. subst w2. cbn. exact Hm. }
  pose proof (readSensorData_fails w2) as Hfail.
  destruct (readBytes [0; 0; 0; 0; 0; 0] 6 w2) as [[ok buffer] w3] eqn:Er.
  assert (Hself : ok = true -> self w3 = self w2).
  { intros ->. now destruct (readBytes_ok _ _ _ _ _ (zeros_bytes 6) Er). }
  rewrite (readSensorData_unfold w2 w3 buffer ok Er) in *.
  cbn [fst snd] in H.
  assert (Hf : (if negb ok then false
                else if _useCRC (self w3)
                        && negb (peek buffer 2 =? CRC.crc8 buffer 2)
                     then false
                     else if _useCRC (self w3)
                             && negb (peek buffer 5
                                      =? CRC.crc8 (skipn 3 buffer) 2)
                          then false else true) = false).
  { destruct ok; cbn [negb]; [|reflexivity].
    rewrite (Hself eq_refl).
    replace (_useCRC (self w2)) with (_useCRC (self w))
      by (subst w2; cbn; now rewrite Hu).
    pose proof (corrupted_at_eqb buffer 0) as C0.
    pose proof (corrupted_at_eqb buffer 3) as C3.
    cbn [Nat.add] in C0, C3. change (skipn 0 buffer) with buffer in C0.
    rewrite (Hself eq_refl) in H.
    replace (_useCRC (self w2)) with (_useCRC (self w)) in H
      by (subst w2; cbn; now rewrite Hu).
    destruct (_useCRC (self w));
      destruct (negb (peek buffer 2 =? CRC.crc8 buffer 2));
      destruct (negb (peek buffer 5 =? CRC.crc8 (skipn 3 buffer) 2));
      cbn in *; try reflexivity;
      intuition (discriminate || congruence). }
  clear H.
  destruct (negb ok).
  { cbn [fst snd] in *. split; [reflexivity|].
    unfold same_measurement in *. intuition congruence. }
  destruct (_useCRC (self w3)
            && negb (peek buffer 2 =? CRC.crc8 buffer 2)).
  { cbn [fst snd] in *. split; [reflexivity|].
    unfold same_measurement in *. intuition congruence. }
  destruct (_useCRC (self w3)
            && negb (peek buffer 5 =? CRC.crc8 (skipn 3 buffer) 2)).
  { cbn [fst snd] in *. split; [reflexivity|].
    unfold same_measurement in *. intuition congruence. }
  discriminate.
Qed.

(** C10, as amended.  On a single-shot command that is written, and
    so whenever the call returns a measurement, [runSingleShot] calls
    [delay] once, between the write and the request of the six bytes,
    for the delay of the command: 16 ms for high, 7 ms for medium and
    5 ms for low repeatability; the call returns with that delay
    spent, a high-repeatability measurement with 16 ms.  When the
    command is not written, the call returns [false] in the world the
    write leaves: its calls are those of the write, with no delay and
    no read. *)
Theorem runSingleShot_waits_before_reading
  (u16Command : Z) (fT fH : pointer) (w : World B) :
  In u16Command single_shot_commands ->
  let address := _i2c_device_address (self w) in
  let r := runSingleShot dbl u16Command fT fH w in
  let w' := snd r in
  (fst (writeCommand u16Command w) = true \/ fst r = true ->
   exists reads,
     trace w'
     = trace w
       ++ [EvBeginTransmission address;
           EvWrite (command_bytes u16Command); EvEndTransmission]
       ++ EvDelay (minimum_delay u16Command)
       :: EvRequestFrom address 6 :: reads
     /\ Forall (eq EvRead) reads
     /\ delayed (trace w') = delayed (trace w) + minimum_delay u16Command
     /\ minimum_delay CMD_SS_CSD_HIGH = 16
     /\ minimum_delay CMD_SS_CSD_MEDIUM = 7
     /\ minimum_delay CMD_SS_CSD_LOW = 5)
  /\ (fst (writeCommand u16Command w) = false ->
      r = (false, snd (writeCommand u16Command w))
      /\ trace w'
         = trace w
           ++ [EvBeginTransmission address;
               EvWrite (command_bytes u16Command); EvEndTransmission]
      /\ delayed (trace w') = delayed (trace w)).
Proof.
  intros Hc address r w'.
  pose proof (writeCommand_trace u16Command w) as Ht.
  assert (Hfail : fst (writeCommand u16Command w) = false ->
                  r = (false, snd (writeCommand u16Command w))).
  { intros Hf. subst r. unfold runSingleShot.
    apply single_shot_dec in Hc. rewrite Hc.
    unfold bind at 1.
    destruct (writeCommand u16Command w) as [ok w1].
    cbn [fst] in Hf. subst ok. reflexivity. }
  split.
  - intros Hw.
    destruct (writeCommand u16Command w) as [ok w1] eqn:Ew.
    assert (Hok : ok = true).
    { destruct Hw as [Hw | Hw]; [exact Hw|].
      destruct ok; [reflexivity|].
      subst r. rewrite (Hfail eq_refl) in Hw. discriminate Hw. }
    clear Hw Hfail. subst ok.
    cbn [snd] in Ht.
    destruct (transparent_writeCommand u16Command w) as [_ [Ha _]].
    rewrite Ew in Ha. cbn [snd] in Ha.
    subst w' r. rewrite (runSingleShot_unfold _ fT fH w w1 Hc Ew).
    set (w2 := snd (delay (minimum_delay u16Command) w1)).
    destruct (readBytes_trace [0; 0; 0; 0; 0; 0] 6 w2)
      as [reads [Hr Hreads]].
    destruct (readBytes [0; 0; 0; 0; 0; 0] 6 w2)
      as [[ok buffer] w3] eqn:Er.
    cbn [snd] in Hr.
    assert (Htr : trace (snd (let (ok, w3) := readSensorData dbl w2 in
                              if ok
                              then (true,
                                    {| self := self w3; wire := wire w3;
                                       trace := trace w3;
                                       heap := store
                                                 (store (heap w3) fT
                                                    (_temperature
                                                       (self w3)))
                                                 fH (_humidity (self w3))
                                    |})
                              else (false, w3)))
                  = trace w3).
    { rewrite (readSensorData_unfold w2 w3 buffer ok Er).
      destruct ok; cbn [negb]; [|reflexivity].
      destruct (_useCRC (self w3)
                && negb (peek buffer 2 =? CRC.crc8 buffer 2));
        [reflexivity|].
      destruct (_useCRC (self w3)
                && negb (peek buffer 5 =? CRC.crc8 (skipn 3 buffer) 2));
        reflexivity. }
    exists reads. rewrite Htr, Hr. subst w2. cbn [delay snd trace self].
    rewrite Ht, Ha. fold address.
    repeat split.
    + rewrite <- !app_assoc. reflexivity.
    + exact Hreads.
    + rewrite !delayed_app. cbn [delayed].
      assert (Hd : delayed reads = 0).
      { clear - Hreads.
        induction Hreads as [|e l He _ IH]; [reflexivity|].
        subst e. exact IH. }
      rewrite Hd. lia.
  - intros Hf. specialize (Hfail Hf). subst w'. rewrite Hfail.
    cbn [snd]. split; [reflexivity|]. fold address in Ht.
    split; [exact Ht|]. rewrite Ht, delayed_app. cbn [delayed]. lia.
Qed.

End DriverFacts.

(* ================================================================== *)
(** * The fault flags *)
(* ================================================================== *)

Lemma fault_flags_disjoint f g :
  In f fault_flags -> In g fault_flags -> f <> g -> Z.land f g = 0.
Proof.
  unfold fault_flags. cbn [In]. intros Hf Hg Hne.
  repeat match goal with
         | H : _ \/ _ |- _ => destruct H as [H | H]
         | H : False |- _ => destruct H
         end; subst; try reflexivity; now elim Hne.
Qed.

Lemma fault_flags_nonzero f : In f fault_flags -> f <> 0.
Proof.
  unfold fault_flags. cbn [In]. intros Hf.
  repeat match goal with
         | H : _ \/ _ |- _ => destruct H as [H | H]
         | H : False |- _ => destruct H
         end; subst; discriminate.
Qed.

Lemma land_accumulate f faults :
  In f fault_flags ->
  forall acc,
    incl faults fault_flags ->
    Z.land (accumulate acc faults) f
    = Z.lor (Z.land acc f) (if existsb (Z.eqb f) faults then f else 0).
Proof.
  intros Hf. induction faults as [|g rest IH]; intros acc Hincl.
  - cbn. now rewrite Z.lor_0_r.
  - assert (Hg : In g fault_flags) by (apply Hincl; now left).
    assert (Hrest : incl rest fault_flags)
      by (intros x Hx; apply Hincl; now right).
    cbn [accumulate fold_left existsb]. fold (accumulate (Z.lor acc g) rest).
    rewrite (IH _ Hrest), Z.land_lor_distr_l.
    destruct (Z.eqb_spec f g) as [-> | Hne]; cbn [orb].
    + rewrite Z.land_diag, <- Z.lor_assoc. f_equal.
      destruct (existsb (Z.eqb g) rest); [apply Z.lor_diag | apply Z.lor_0_r].
    + rewrite (fault_flags_disjoint g f Hg Hf) by congruence.
      now rewrite Z.lor_0_r.
Qed.

(** The header defines a ninth mask, [ERROR_TRANSMISSION_LEN], that the
    driver never raises; [ERROR_WRONG_COMMAND] holds its bit. *)
Remark wrong_command_holds_transmission_len :
  Z.land ERROR_WRONG_COMMAND ERROR_TRANSMISSION_LEN = ERROR_TRANSMISSION_LEN.
Proof. reflexivity. Qed.

(** C3. Two distinct fault flags among write length, end of
    transmission, request length, wrong command, CRC check, not
    connected, wrong sensor id and timeout have no bit in common, and
    after any combination of these faults is ORed into a drained
    accumulator a flag is in the accumulator exactly when its fault is
    one of them. *)
Theorem fault_flags_independent (f g : Z) (faults : list Z) :
  In f fault_flags -> In g fault_flags -> f <> g ->
  incl faults fault_flags ->
  Z.land f g = 0
  /\ (In f faults <-> Z.land (accumulate NO_ERROR faults) f = f)
  /\ (~ In f faults <-> Z.land (accumulate NO_ERROR faults) f = 0).
Proof.
  intros Hf Hg Hne Hincl.
  split; [now apply fault_flags_disjoint|].
  rewrite (land_accumulate f faults Hf NO_ERROR Hincl).
  cbn [NO_ERROR Z.land Z.lor].
  pose proof (fault_flags_nonzero f Hf) as Hnz.
  assert (Hin : In f faults <-> existsb (Z.eqb f) faults = true).
  { rewrite existsb_exists. split.
    - intros H. exists f. split; [exact H | apply Z.eqb_refl].
    - intros [x [Hx E]]. apply Z.eqb_eq in E. now subst. }
  destruct (existsb (Z.eqb f) faults); intuition congruence.
Qed.

Lemma fault_flags_independent_witness :
  Z.land ERROR_CRC_CHECK ERROR_WRONG_COMMAND = 0
  /\ (In ERROR_CRC_CHECK [ERROR_WRONG_COMMAND; ERROR_CRC_CHECK]
      <-> Z.land (accumulate NO_ERROR [ERROR_WRONG_COMMAND; ERROR_CRC_CHECK])
                 ERROR_CRC_CHECK = ERROR_CRC_CHECK)
  /\ (~ In ERROR_CRC_CHECK [ERROR_WRONG_COMMAND; ERROR_CRC_CHECK]
      <-> Z.land (accumulate NO_ERROR [ERROR_WRONG_COMMAND; ERROR_CRC_CHECK])
                 ERROR_CRC_CHECK = 0).
Proof.
  apply (fault_flags_independent ERROR_CRC_CHECK ERROR_WRONG_COMMAND
           [ERROR_WRONG_COMMAND; ERROR_CRC_CHECK]).
  - simpl. tauto.
  - simpl. tauto.
  - discriminate.
  - intros x Hx. simpl in Hx. simpl. intuition.
Defined.

(* ================================================================== *)
(** * The driver on the scripted bus *)
(* ================================================================== *)

(** C2, as stated, fails on the status read: with the enforcement
    disabled, a status word with a wrong checksum byte is still
    validated; the call returns 0xFFFF and records the CRC fault. *)
Lemma readSensorStatus_validates_when_disabled :
  let w := Mock.world Mock.unchecked (Mock.answering [Mock.bad_status]) in
  _useCRC (self w) = DISABLE_CRC
  /\ _error_code (self w) = NO_ERROR
  /\ fst (readSensorStatus w) = 0xFFFF
  /\ _error_code (self (snd (readSensorStatus w))) = ERROR_CRC_CHECK
  /\ ~ (_useCRC (self w) = DISABLE_CRC ->
        Z.land (_error_code (self (snd (readSensorStatus w))))
               ERROR_CRC_CHECK = 0).
Proof.
  cbv zeta. repeat split.
  intros H. specialize (H eq_refl). vm_compute in H. discriminate H.
Qed.

Lemma crc_gating_of_measurement_not_of_status_witness :
  let w := Mock.world Mock.unchecked
             (Mock.answering [Mock.bad_measurement]) in
  let v := Mock.world Mock.unchecked (Mock.answering [Mock.bad_status]) in
  let r := readSensorData FP.binary32 w in
  let s := readSensorStatus v in
  (fst r = false
   <-> _useCRC (self w) = true
       /\ (corrupted_at Mock.bad_measurement 0
           \/ corrupted_at Mock.bad_measurement 3))
  /\ (fst r = false ->
      _error_code (self (snd r))
      = Z.lor (_error_code (self w)) ERROR_CRC_CHECK
      /\ same_measurement w (snd r))
  /\ (fst r = true ->
      _error_code (self (snd r)) = _error_code (self w)
      /\ _temperature (self (snd r))
         = (if _tUnit (self w)
            then celsius_of FP.binary32 (code_at Mock.bad_measurement 0)
            else farenheit_of FP.binary32 (code_at Mock.bad_measurement 0))
      /\ _humidity (self (snd r))
         = humidity_of FP.binary32 (code_at Mock.bad_measurement 3))
  /\ fst s = 0xFFFF
  /\ _error_code (self (snd s))
     = Z.lor (_error_code (self (snd (writeCommand CMD_READ_STATUS v))))
             ERROR_CRC_CHECK.
Proof.
  intros w v.
  apply (crc_gating_of_measurement_not_of_status FP.binary32
           w (snd (readBytes [0; 0; 0; 0; 0; 0] 6 w)) Mock.bad_measurement
           v (snd (writeCommand CMD_READ_STATUS v))
           (snd (readBytes [0; 0; 0] 3
                   (snd (writeCommand CMD_READ_STATUS v))))
           Mock.bad_status).
  - vm_compute. reflexivity.
  - vm_compute. reflexivity.
  - vm_compute. reflexivity.
  - unfold corrupted_at. vm_compute. discriminate.
Defined.

(** C4 fails on the code: on a bus where nobody acknowledges, the
    command is not written, the fault is recorded, and
    [clearSensorStatus] returns [true]. *)
Lemma clearSensorStatus_true_on_failed_write :
  let w := Mock.world Mock.fresh Mock.silent in
  fst (writeCommand CMD_CLEAR_STATUS w) = false
  /\ fst (clearSensorStatus w) = true
  /\ _error_code (self (snd (clearSensorStatus w))) = ERROR_END_TRANSMISSION.
Proof. cbv zeta. repeat split. Qed.

(** Two faulting calls, then two drains. *)
Example drain_after_two_faults :
  let w := Mock.world Mock.fresh (Mock.answering []) in
  let w1 := snd (resetSensor 0x1234 w) in
  let w2 := snd (readSensorStatus w1) in
  fst (getLastError w2) = Z.lor ERROR_WRONG_COMMAND ERROR_REQUEST_LEN
  /\ fst (getLastError (snd (getLastError w2))) = NO_ERROR.
Proof. cbv zeta. split; reflexivity. Qed.

Lemma resetSensor_rejects_without_bus_witness :
  let w := Mock.world Mock.fresh (Mock.answering []) in
  let r := resetSensor 0x1234 w in
  fst r = false
  /\ _error_code (self (snd r))
     = Z.lor (_error_code (self w)) ERROR_WRONG_COMMAND
  /\ wire (snd r) = wire w
  /\ trace (snd r) = trace w.
Proof.
  intros w.
  apply (resetSensor_rejects_without_bus 0x1234 w); discriminate.
Defined.

(** C8, as stated, fails when the enforcement is disabled: a response
    with a wrong checksum byte is no failure; [runSingleShot] returns
    [true], records no fault, and the session and the caller's
    variables hold the values converted from the bytes. *)
Lemma runSingleShot_surfaces_unchecked_bytes :
  let w := Mock.world Mock.unchecked
             (Mock.answering [Mock.bad_measurement]) in
  let r := runSingleShot FP.binary32 CMD_SS_CSD_HIGH 0%nat 1%nat w in
  corrupted_at Mock.bad_measurement 0
  /\ fst r = true
  /\ _error_code (self (snd r)) = NO_ERROR
  /\ _temperature (self (snd r)) = celsius_of FP.binary32 0x6A65
  /\ _temperature (self (snd r)) <> _temperature (self w)
  /\ heap (snd r) 0%nat <> heap w 0%nat
  /\ ~ same_measurement w (snd r).
Proof.
  cbv zeta. split; [unfold corrupted_at; vm_compute; discriminate|].
  split; [vm_compute; reflexivity|]. split; [vm_compute; reflexivity|].
  split; [vm_compute; reflexivity|].
  split; [vm_compute; discriminate|].
  split; [vm_compute; discriminate|].
  intros (H & _). vm_compute in H. discriminate H.
Qed.

Lemma runSingleShot_failure_keeps_measurement_witness :
  let w := Mock.world Mock.fresh (Mock.answering [Mock.bad_measurement]) in
  fst (runSingleShot FP.binary32 CMD_SS_CSD_HIGH 0%nat 1%nat w) = false
  /\ same_measurement w
       (snd (runSingleShot FP.binary32 CMD_SS_CSD_HIGH 0%nat 1%nat w)).
Proof.
  intros w.
  apply (runSingleShot_failure_keeps_measurement FP.binary32
           CMD_SS_CSD_HIGH 0%nat 1%nat w).
  left. unfold failed_step. right. right. cbv zeta. right.
  split; [reflexivity|].
  left. unfold corrupted_at. vm_compute. discriminate.
Defined.

(** C10, as stated, fails when the command is not written: on a bus
    where nobody acknowledges, a high-repeatability [runSingleShot]
    returns [false] after the write, with no delay and no read. *)
Lemma runSingleShot_returns_at_once_on_failed_write :
  let w := Mock.world Mock.fresh Mock.silent in
  let r := runSingleShot FP.binary32 CMD_SS_CSD_HIGH 0%nat 1%nat w in
  fst r = false
  /\ trace (snd r)
     = [EvBeginTransmission 0x44; EvWrite [0x24; 0x00]; EvEndTransmission]
  /\ delayed (trace (snd r)) - delayed (trace w) = 0
  /\ ~ 16 <= delayed (trace (snd r)) - delayed (trace w).
Proof.
  cbv zeta. split; [reflexivity|]. split; [reflexivity|].
  split; [reflexivity|]. vm_compute. intros H. now apply H.
Qed.

Lemma runSingleShot_waits_before_reading_witness :
  let w := Mock.world Mock.fresh (Mock.answering [Mock.good_measurement]) in
  let w' := snd (runSingleShot FP.binary32 CMD_SS_CSD_HIGH 0%nat 1%nat w) in
  let v := Mock.world Mock.fresh Mock.silent in
  let r := runSingleShot FP.binary32 CMD_SS_CSD_HIGH 0%nat 1%nat v in
  (exists reads,
     trace w'
     = trace w
       ++ [EvBeginTransmission 0x44;
           EvWrite (command_bytes CMD_SS_CSD_HIGH); EvEndTransmission]
       ++ EvDelay 16 :: EvRequestFrom 0x44 6 :: reads
     /\ Forall (eq EvRead) reads
     /\ delayed (trace w') = delayed (trace w) + 16
     /\ minimum_delay CMD_SS_CSD_HIGH = 16
     /\ minimum_delay CMD_SS_CSD_MEDIUM = 7
     /\ minimum_delay CMD_SS_CSD_LOW = 5)
  /\ (r = (false, snd (writeCommand CMD_SS_CSD_HIGH v))
      /\ trace (snd r)
         = trace v
           ++ [EvBeginTransmission 0x44;
               EvWrite (command_bytes CMD_SS_CSD_HIGH); EvEndTransmission]
      /\ delayed (trace (snd r)) = delayed (trace v)).
Proof.
  intros w w' v r. split.
  - apply (proj1 (runSingleShot_waits_before_reading FP.binary32
                    CMD_SS_CSD_HIGH 0%nat 1%nat w (or_introl eq_refl))).
    left. vm_compute. reflexivity.
  - apply (proj2 (runSingleShot_waits_before_reading FP.binary32
                    CMD_SS_CSD_HIGH 0%nat 1%nat v (or_introl eq_refl))).
    vm_compute. reflexivity.
Defined.

(* ================================================================== *)
(** * The conversion formulas *)
(* ================================================================== *)

Module ConversionFacts.

Import FloatFacts.

Lemma Rabs_le_inv (x a : R) : (Rabs x <= a -> - a <= x <= a)%R.
Proof. unfold Rabs. destruct (Rcase_abs x); lra. Qed.

Lemma pow2_neg p : powerRZ 2 (Z.neg p) = (/ IZR (2 ^ Z.pos p))%R.
Proof. rewrite <- pow2_IZR by lia. reflexivity. Qed.

(** Turns the powers of two of the goal into numerals. *)
Ltac numerals :=
  rewrite ?pow2_neg;
  repeat match goal with
         | |- context [IZR (2 ^ ?k)] =>
             let v := eval vm_compute in (2 ^ k) in change (2 ^ k) with v
         end.

Ltac numerals_in H :=
  rewrite ?pow2_neg in H;
  repeat match type of H with
         | context [IZR (2 ^ ?k)] =>
             let v := eval vm_compute in (2 ^ k) in change (2 ^ k) with v in H
         end.

Section Formulas.

(** The format of [double]: at least the precision of binary32, and
    exponents to spare. *)
Variable dbl : FP.format.
Hypothesis dbl_prec : 24 <= FP.prec dbl.
Hypothesis dbl_emax : FP.prec dbl + 17 <= FP.emax dbl.

Lemma dbl_prec_pos : 0 < FP.prec dbl.
Proof. lia. Qed.

Lemma dbl_fexp_10 : fexp (FP.prec dbl) (FP.emax dbl) (9 + 1) <= -14.
Proof. unfold fexp, emin. lia. Qed.

Lemma of_int_exact n :
  0 <= n < 65536 ->
  is_finite (FP.of_int dbl n) = true
  /\ SF2R (FP.of_int dbl n) = IZR n
  /\ exponent_le (FP.of_int dbl n) 0.
Proof.
  intros Hn. apply of_int_R.
  - exact dbl_prec_pos.
  - assert (2 ^ 16 <= 2 ^ FP.prec dbl) by (apply Z.pow_le_mono_r; lia).
    change (2 ^ 16) with 65536 in *. lia.
  - unfold emin. lia.
Qed.

(** [data * (range / 65535)] in [double]. *)
Lemma scale_close range data :
  0 < range <= 315 -> 0 <= data < 65536 ->
  approximates_ratio
    (FP.div dbl (FP.of_int dbl range) (FP.of_int dbl 65535)) range ->
  is_finite (scale dbl range data) = true
  /\ (Rabs (SF2R (scale dbl range data) - IZR data * IZR range / 65535)
      <= 5 / 32768)%R.
Proof.
  intros Hr Hd (Cf & Ce & Cv). unfold scale.
  set (c := FP.div dbl (FP.of_int dbl range) (FP.of_int dbl 65535)) in *.
  destruct (of_int_exact data Hd) as (Xf & Xv & Xe).
  set (x := FP.of_int dbl data) in *.
  clearbody c x.
  apply Rabs_le_inv in Cv. numerals_in Cv.
  assert (Hd' : (0 <= IZR data <= 65535)%R)
    by (split; apply IZR_le; lia).
  assert (Hr' : (1 <= IZR range <= 315)%R)
    by (split; apply IZR_le; lia).
  assert (Hc : (0 <= SF2R c <= 1 / 200)%R) by lra.
  assert (Hp : (0 <= IZR data * SF2R c <= 328)%R) by nra.
  assert (H512 : powerRZ 2 9 = 512%R)
    by (rewrite pow2_IZR by lia; reflexivity).
  destruct (SFmul_R (FP.prec dbl) (FP.emax dbl) dbl_prec_pos
              x c 9 (-14) 0 (-14) Xf Cf) as (Pf & Pv).
  - rewrite Xv, H512. apply Rabs_def1; lra.
  - exact Xe.
  - exact Ce.
  - pose proof dbl_fexp_10. lia.
  - lia.
  - split; [exact Pf|].
    apply Rabs_le_inv in Pv. numerals_in Pv. rewrite Xv in Pv.
    unfold FP.mul. apply Rabs_le. nra.
Qed.

(** [data * (range / 65535) - offset] in [double], narrowed to
    [float]. *)
Lemma offset_close range offset data :
  0 < range <= 315 -> 0 <= offset <= 49 -> 0 <= data < 65536 ->
  approximates_ratio
    (FP.div dbl (FP.of_int dbl range) (FP.of_int dbl 65535)) range ->
  within_tolerance
    (FP.convert FP.binary32
       (FP.sub dbl (scale dbl range data) (FP.of_int dbl offset)))
    (IZR data * IZR range / 65535 - IZR offset).
Proof.
  intros Hr Ho Hd HC.
  destruct (scale_close range data Hr Hd HC) as (Pf & Pv).
  destruct (of_int_exact offset) as (Of & Ov & _); [lia|].
  set (p := scale dbl range data) in *.
  set (o := FP.of_int dbl offset) in *.
  clearbody p o.
  apply Rabs_le_inv in Pv.
  assert (Hd' : (0 <= IZR data <= 65535)%R)
    by (split; apply IZR_le; lia).
  assert (Hr' : (0 <= IZR range <= 315)%R)
    by (split; apply IZR_le; lia).
  assert (Ho' : (0 <= IZR offset <= 49)%R)
    by (split; apply IZR_le; lia).
  assert (Hq : (0 <= IZR data * IZR range / 65535 <= 315)%R) by nra.
  assert (H512 : powerRZ 2 9 = 512%R)
    by (rewrite pow2_IZR by lia; reflexivity).
  destruct (SFsub_R (FP.prec dbl) (FP.emax dbl) dbl_prec_pos
              p o 9 (-14) Pf Of) as (Sf & Sv).
  - rewrite Ov, H512. apply Rabs_def1; lra.
  - exact dbl_fexp_10.
  - lia.
  - fold (FP.sub dbl p o) in Sf, Sv. set (s := FP.sub dbl p o) in *.
    clearbody s.
    apply Rabs_le_inv in Sv. numerals_in Sv. rewrite Ov in Sv.
    destruct (convert_R 24 128 s 9 (-14)) as (Tf & Tv);
      [lia | exact Sf | | vm_compute; discriminate | lia |].
    + rewrite H512. apply Rabs_def1; lra.
    + split; [exact Tf|].
      apply Rabs_le_inv in Tv. numerals_in Tv.
      unfold FP.convert. cbn [FP.prec FP.emax FP.binary32].
      apply Rabs_le. lra.
Qed.

(** [data * (range / 65535)] in [double], narrowed to [float]. *)
Lemma ratio_close range data :
  0 < range <= 315 -> 0 <= data < 65536 ->
  approximates_ratio
    (FP.div dbl (FP.of_int dbl range) (FP.of_int dbl 65535)) range ->
  within_tolerance
    (FP.convert FP.binary32 (scale dbl range data))
    (IZR data * IZR range / 65535).
Proof.
  intros Hr Hd HC.
  destruct (scale_close range data Hr Hd HC) as (Pf & Pv).
  set (p := scale dbl range data) in *.
  clearbody p.
  apply Rabs_le_inv in Pv.
  assert (Hd' : (0 <= IZR data <= 65535)%R)
    by (split; apply IZR_le; lia).
  assert (Hr' : (0 <= IZR range <= 315)%R)
    by (split; apply IZR_le; lia).
  assert (Hq : (0 <= IZR data * IZR range / 65535 <= 315)%R) by nra.
  assert (H512 : powerRZ 2 9 = 512%R)
    by (rewrite pow2_IZR by lia; reflexivity).
  destruct (convert_R 24 128 p 9 (-14)) as (Tf & Tv);
    [lia | exact Pf | | vm_compute; discriminate | lia |].
  - rewrite H512. apply Rabs_def1; lra.
  - split; [exact Tf|].
    apply Rabs_le_inv in Tv. numerals_in Tv.
    unfold FP.convert. cbn [FP.prec FP.emax FP.binary32].
    apply Rabs_le. lra.
Qed.

End Formulas.

(** The three constants, as the two formats round them. *)
Ltac ratio :=
  match goal with
  | |- approximates_ratio ?c _ =>
      let v := eval vm_compute in c in change c with v
  end;
  unfold approximates_ratio, is_finite, exponent_le, SF2R;
  split; [reflexivity|]; split; [lia|];
  cbn [cond_Zopp]; numerals; apply Rabs_le; split; lra.

Lemma ratios_binary32 :
  approximates_ratio
    (FP.div FP.binary32 (FP.of_int FP.binary32 175)
       (FP.of_int FP.binary32 65535)) 175
  /\ approximates_ratio
       (FP.div FP.binary32 (FP.of_int FP.binary32 315)
          (FP.of_int FP.binary32 65535)) 315
  /\ approximates_ratio
       (FP.div FP.binary32 (FP.of_int FP.binary32 100)
          (FP.of_int FP.binary32 65535)) 100.
Proof. split; [ratio | split; ratio]. Qed.

Lemma ratios_binary64 :
  approximates_ratio
    (FP.div FP.binary64 (FP.of_int FP.binary64 175)
       (FP.of_int FP.binary64 65535)) 175
  /\ approximates_ratio
       (FP.div FP.binary64 (FP.of_int FP.binary64 315)
          (FP.of_int FP.binary64 65535)) 315
  /\ approximates_ratio
       (FP.div FP.binary64 (FP.of_int FP.binary64 100)
          (FP.of_int FP.binary64 65535)) 100.
Proof. split; [ratio | split; ratio]. Qed.

(** The three formulas of [readSensorData], for [double] in binary32 or
    in binary64, on every 16-bit code. *)
Lemma formulas_close dbl data :
  dbl = FP.binary32 \/ dbl = FP.binary64 ->
  0 <= data < 65536 ->
  within_tolerance (celsius_of dbl data) (IZR data * 175 / 65535 - 45)
  /\ within_tolerance (farenheit_of dbl data) (IZR data * 315 / 65535 - 49)
  /\ within_tolerance (humidity_of dbl data) (IZR data * 100 / 65535).
Proof.
  intros Hdbl Hd. unfold celsius_of, farenheit_of, humidity_of.
  destruct Hdbl as [-> | ->].
  - destruct ratios_binary32 as (C175 & C315 & C100).
    repeat split.
    + apply (offset_close FP.binary32); cbn; try lia. exact C175.
    + apply (offset_close FP.binary32); cbn; try lia. exact C175.
    + apply (offset_close FP.binary32); cbn; try lia. exact C315.
    + apply (offset_close FP.binary32); cbn; try lia. exact C315.
    + apply (ratio_close FP.binary32); cbn; try lia. exact C100.
    + apply (ratio_close FP.binary32); cbn; try lia. exact C100.
  - destruct ratios_binary64 as (C175 & C315 & C100).
    repeat split.
    + apply (offset_close FP.binary64); cbn; try lia. exact C175.
    + apply (offset_close FP.binary64); cbn; try lia. exact C175.
    + apply (offset_close FP.binary64); cbn; try lia. exact C315.
    + apply (offset_close FP.binary64); cbn; try lia. exact C315.
    + apply (ratio_close FP.binary64); cbn; try lia. exact C100.
    + apply (ratio_close FP.binary64); cbn; try lia. exact C100.
Qed.

End ConversionFacts.

Section ConversionClaim.

Context {B : Type} {TW : Wire.TwoWire B}.

(** C9. After a measurement response is read and validated, the
    humidity is [Hc * 100 / 65535] and the temperature is
    [Tc * 175 / 65535 - 45] when the unit is Celsius and
    [Tc * 315 / 65535 - 49] when it is Fahrenheit, each within [1e-3],
    for every pair of raw codes [Tc] and [Hc] and for [double] in
    binary32 or binary64; the humidity is the rounded formula, not
    clamped. *)
Theorem conversion_within_tolerance
  (dbl : FP.format) (w w1 w' : World B) (buffer : list Z) :
  dbl = FP.binary32 \/ dbl = FP.binary64 ->
  readBytes [0; 0; 0; 0; 0; 0] 6 w = (true, buffer, w1) ->
  readSensorData dbl w = (true, w') ->
  let Tc := code_at buffer 0 in
  let Hc := code_at buffer 3 in
  0 <= Tc < 65536
  /\ 0 <= Hc < 65536
  /\ _humidity (self w') = humidity_of dbl Hc
  /\ within_tolerance (_humidity (self w')) (IZR Hc * 100 / 65535)
  /\ (_tUnit (self w) = CELSIUS ->
      within_tolerance (_temperature (self w')) (IZR Tc * 175 / 65535 - 45))
  /\ (_tUnit (self w) = FARENHEIT ->
      within_tolerance (_temperature (self w')) (IZR Tc * 315 / 65535 - 49)).
Proof.
  intros Hdbl Er Hd Tc Hc.
  destruct (readBytes_ok _ _ _ _ _ (zeros_bytes 6) Er) as [Hb Hs].
  assert (HT : 0 <= Tc < 65536).
  { pose proof (peek_byte buffer 0 Hb). pose proof (peek_byte buffer 1 Hb).
    unfold Tc, code_at, is_byte in *. lia. }
  assert (HH : 0 <= Hc < 65536).
  { pose proof (peek_byte buffer 3 Hb). pose proof (peek_byte buffer 4 Hb).
    unfold Hc, code_at, is_byte in *. lia. }
  rewrite (readSensorData_unfold dbl w w1 buffer true Er) in Hd.
  rewrite !code_at_uint16 in Hd by exact Hb. fold Tc Hc in Hd.
  cbn [negb] in Hd. rewrite Hs in Hd.
  destruct (_useCRC (self w) && negb (peek buffer 2 =? CRC.crc8 buffer 2));
    [discriminate|].
  destruct (_useCRC (self w)
            && negb (peek buffer 5 =? CRC.crc8 (skipn 3 buffer) 2));
    [discriminate|].
  inversion Hd as [Hw']. clear Hd. cbn [self _humidity _temperature
                                         set_humidity set_temperature].
  destruct (ConversionFacts.formulas_close dbl Tc Hdbl HT) as (Hc1 & Hc2 & _).
  destruct (ConversionFacts.formulas_close dbl Hc Hdbl HH) as (_ & _ & Hc3).
  split; [exact HT|]. split; [exact HH|]. split; [reflexivity|].
  split; [exact Hc3|].
  split; intros ->; [exact Hc1 | exact Hc2].
Qed.

End ConversionClaim.

Lemma conversion_within_tolerance_witness :
  let w := Mock.world Mock.fresh (Mock.answering [Mock.good_measurement]) in
  let w' := snd (readSensorData FP.binary32 w) in
  let Tc := code_at Mock.good_measurement 0 in
  let Hc := code_at Mock.good_measurement 3 in
  0 <= Tc < 65536
  /\ 0 <= Hc < 65536
  /\ _humidity (self w') = humidity_of FP.binary32 Hc
  /\ within_tolerance (_humidity (self w')) (IZR Hc * 100 / 65535)
  /\ (_tUnit (self w) = CELSIUS ->
      within_tolerance (_temperature (self w')) (IZR Tc * 175 / 65535 - 45))
  /\ (_tUnit (self w) = FARENHEIT ->
      within_tolerance (_temperature (self w')) (IZR Tc * 315 / 65535 - 49)).
Proof.
  intros w w'.
  apply (conversion_within_tolerance FP.binary32 w
           (snd (readBytes [0; 0; 0; 0; 0; 0] 6 w)) w' Mock.good_measurement).
  - left. reflexivity.
  - vm_compute. reflexivity.
  - vm_compute. reflexivity.
Defined.

(** The raw code [0x6A65] of the datasheet in Celsius and as a
    humidity. *)
Example conversion_of_0x6A65 :
  celsius_of FP.binary32 0x6A65 = S754_finite false 14539420 (-19)
  /\ humidity_of FP.binary32 0x6A65 = S754_finite false 10894966 (-18)
  /\ within_tolerance (celsius_of FP.binary32 0x6A65)
       (0x6A65 * 175 / 65535 - 45)
  /\ within_tolerance (humidity_of FP.binary32 0x6A65)
       (0x6A65 * 100 / 65535).
Proof.
  split; [vm_compute; reflexivity|]. split; [vm_compute; reflexivity|].
  destruct (ConversionFacts.formulas_close FP.binary32 0x6A65)
    as (H1 & _ & H3); [now left | lia |].
  split; [exact H1 | exact H3].
Qed.

(* ================================================================== *)
(** * Further properties of the checksum *)
(* ================================================================== *)

Module CRCMore.

Import CRC CRCFacts.

(** Equalities of exclusive ors, bit by bit. *)
Ltac bitwise :=
  apply Z.bits_inj'; intros ?n ?Hn;
  rewrite ?Z.lxor_spec, ?Z.bits_0;
  repeat match goal with
         | |- context [Z.testbit ?x ?n] => destruct (Z.testbit x n)
         end;
  reflexivity.

Lemma to_uint8_lxor x y :
  to_uint8 (Z.lxor x y) = Z.lxor (to_uint8 x) (to_uint8 y).
Proof.
  unfold to_uint8. change 256 with (2 ^ 8).
  apply Z.bits_inj'. intros n Hn.
  destruct (Z.lt_ge_cases n 8) as [Hlow | Hhigh].
  - rewrite Z.lxor_spec, !Z.mod_pow2_bits_low by lia.
    now rewrite Z.lxor_spec.
  - rewrite Z.lxor_spec, !Z.mod_pow2_bits_high by lia. reflexivity.
Qed.

(** One turn of the inner loop: a shift and the polynomial, if the top
    bit is set. *)
Lemma crc8_shift_split c :
  is_byte c ->
  crc8_shift c
  = Z.lxor (to_uint8 (Z.shiftl c 1)) (if Z.testbit c 7 then POLY else 0).
Proof.
  intros Hc. apply Z.eqb_eq.
  apply (forall_bytes
           (fun c => crc8_shift c
                     =? Z.lxor (to_uint8 (Z.shiftl c 1))
                               (if Z.testbit c 7 then POLY else 0)));
    [|exact Hc].
  vm_compute. reflexivity.
Qed.

(** The inner loop is linear over GF(2). *)
Lemma crc8_shift_lxor a b :
  is_byte a -> is_byte b ->
  crc8_shift (Z.lxor a b) = Z.lxor (crc8_shift a) (crc8_shift b).
Proof.
  intros Ha Hb.
  rewrite !crc8_shift_split by (assumption || now apply lxor_byte).
  rewrite Z.shiftl_lxor, to_uint8_lxor, Z.lxor_spec.
  set (x := to_uint8 (Z.shiftl a 1)). set (y := to_uint8 (Z.shiftl b 1)).
  destruct (Z.testbit a 7), (Z.testbit b 7); cbn [xorb]; bitwise.
Qed.

Lemma crc8_bits_lxor i :
  forall a b, is_byte a -> is_byte b ->
  crc8_bits i (Z.lxor a b) = Z.lxor (crc8_bits i a) (crc8_bits i b).
Proof.
  induction i as [|i IH]; intros a b Ha Hb; [reflexivity|].
  cbn [crc8_bits]. rewrite crc8_shift_lxor by assumption.
  apply IH; apply crc8_shift_byte.
Qed.

(** Eight turns cancel no byte but zero. *)
Lemma crc8_bits_kernel e : is_byte e -> crc8_bits 8 e = 0 -> e = 0.
Proof.
  intros He H.
  assert (K : implb (crc8_bits 8 e =? 0) (e =? 0) = true).
  { apply (forall_bytes
             (fun e => implb (crc8_bits 8 e =? 0) (e =? 0))); [|exact He].
    vm_compute. reflexivity. }
  rewrite H in K. cbn in K. now apply Z.eqb_eq.
Qed.

Lemma lxor_cancel c x y : Z.lxor c x = Z.lxor c y -> x = y.
Proof.
  intros H.
  assert (K : forall z, Z.lxor c (Z.lxor c z) = z).
  { intros z. now rewrite <- Z.lxor_assoc, Z.lxor_nilpotent, Z.lxor_0_l. }
  rewrite <- (K x), H. apply K.
Qed.

Lemma crc8_pair a b :
  is_byte a -> is_byte b ->
  crc8 [a; b] 2 = crc8_bits 8 (Z.lxor (crc8_bits 8 (Z.lxor 0xFF a)) b).
Proof.
  intros Ha Hb.
  assert (Hff : is_byte 0xFF) by (unfold is_byte; lia).
  unfold crc8. change (Z.to_nat (to_uint8 2)) with 2%nat.
  cbn [crc8_bytes hd tl].
  rewrite (to_uint8_id (Z.lxor 255 a)) by now apply lxor_byte.
  rewrite to_uint8_id; [reflexivity|].
  apply lxor_byte; [|exact Hb]. apply crc8_bits_byte. now apply lxor_byte.
Qed.

(** The checksum of a corrupted field differs from the checksum of the
    field by a value that depends on the error only. *)
Lemma crc8_of_error a b ea eb :
  is_byte a -> is_byte b -> is_byte ea -> is_byte eb ->
  crc8 [Z.lxor a ea; Z.lxor b eb] 2
  = Z.lxor (crc8 [a; b] 2)
      (crc8_bits 8 (Z.lxor (crc8_bits 8 ea) eb)).
Proof.
  intros Ha Hb Hea Heb.
  assert (Hff : is_byte 0xFF) by (unfold is_byte; lia).
  rewrite !crc8_pair by (assumption || now apply lxor_byte).
  rewrite <- crc8_bits_lxor.
  - f_equal.
    rewrite <- (Z.lxor_assoc 255 a ea).
    rewrite crc8_bits_lxor by (assumption || now apply lxor_byte).
    set (x := crc8_bits 8 (Z.lxor 255 a)). set (y := crc8_bits 8 ea).
    bitwise.
  - apply lxor_byte; [|exact Hb]. apply crc8_bits_byte. now apply lxor_byte.
  - apply lxor_byte; [|exact Heb]. now apply crc8_bits_byte.
Qed.

Lemma crc8_prefix data rest :
  (length data < 256)%nat ->
  crc8 (data ++ rest) (Z.of_nat (length data))
  = crc8 data (Z.of_nat (length data)).
Proof.
  intros Hlen. unfold crc8, to_uint8.
  rewrite Z.mod_small by lia. rewrite Nat2Z.id.
  generalize 0xFF. clear Hlen.
  induction data as [|x data IH]; intros crc; [reflexivity|].
  cbn [length crc8_bytes app hd tl]. apply IH.
Qed.

End CRCMore.

(** X1. [crc8] reads the first [len] bytes only and returns a byte:
    what follows them in the buffer does not change the checksum. *)
Theorem crc8_reads_len_bytes (data rest : list Z) :
  (length data < 256)%nat ->
  CRC.crc8 (data ++ rest) (Z.of_nat (length data))
  = CRC.crc8 data (Z.of_nat (length data))
  /\ is_byte (CRC.crc8 (data ++ rest) (Z.of_nat (length data))).
Proof.
  intros Hlen. unfold CRC.crc8, to_uint8.
  rewrite Z.mod_small by lia. rewrite Nat2Z.id.
  assert (Hff : is_byte 0xFF) by (unfold is_byte; lia).
  revert Hff. generalize 0xFF. clear Hlen.
  induction data as [|x data IH]; intros crc Hcrc.
  - cbn. split; [reflexivity | exact Hcrc].
  - cbn [length CRC.crc8_bytes app hd tl].
    apply IH. apply CRCFacts.crc8_bits_byte, CRCFacts.to_uint8_byte.
Qed.

Lemma crc8_reads_len_bytes_witness :
  CRC.crc8 ([0xBE; 0xEF] ++ [0x92]) (Z.of_nat (length [0xBE; 0xEF]))
  = CRC.crc8 [0xBE; 0xEF] (Z.of_nat (length [0xBE; 0xEF]))
  /\ is_byte
       (CRC.crc8 ([0xBE; 0xEF] ++ [0x92]) (Z.of_nat (length [0xBE; 0xEF]))).
Proof.
  apply (crc8_reads_len_bytes [0xBE; 0xEF] [0x92]). simpl. lia.
Defined.

(** X2. The checksum detects every error that is confined to one byte
    of a three-byte field (so every single flipped bit, and every burst
    within a byte): if the two data bytes [a], [b] and their checksum
    are changed by the error bytes [ea], [eb], [ec], exactly one of them
    not zero, the trailing byte is no longer the checksum of the two
    bytes before it. *)
Theorem crc8_detects_errors_in_one_byte (a b ea eb ec : Z) :
  is_byte a -> is_byte b -> is_byte ea -> is_byte eb -> is_byte ec ->
  (ea <> 0 /\ eb = 0 /\ ec = 0)
  \/ (ea = 0 /\ eb <> 0 /\ ec = 0)
  \/ (ea = 0 /\ eb = 0 /\ ec <> 0) ->
  corrupted_at
    [Z.lxor a ea; Z.lxor b eb; Z.lxor (CRC.crc8 [a; b] 2) ec] 0.
Proof.
  intros Ha Hb Hea Heb Hec Hone.
  assert (E : CRC.crc8
                [Z.lxor a ea; Z.lxor b eb; Z.lxor (CRC.crc8 [a; b] 2) ec] 2
              = CRC.crc8 [Z.lxor a ea; Z.lxor b eb] 2).
  { apply (CRCMore.crc8_prefix [Z.lxor a ea; Z.lxor b eb]
             [Z.lxor (CRC.crc8 [a; b] 2) ec]). cbn. lia. }
  unfold corrupted_at. cbn [Nat.add skipn peek nth]. rewrite E.
  rewrite CRCMore.crc8_of_error by assumption.
  intros H. apply CRCMore.lxor_cancel in H.
  assert (Hz : is_byte 0) by (unfold is_byte; lia).
  destruct Hone as [(H1 & -> & ->) | [(-> & H2 & ->) | (-> & -> & H3)]].
  - symmetry in H. rewrite Z.lxor_0_r in H.
    apply CRCMore.crc8_bits_kernel in H;
      [| now apply CRCFacts.crc8_bits_byte].
    apply CRCMore.crc8_bits_kernel in H; [contradiction | exact Hea].
  - symmetry in H. change (CRC.crc8_bits 8 0) with 0 in H.
    rewrite Z.lxor_0_l in H.
    apply CRCMore.crc8_bits_kernel in H; [contradiction | exact Heb].
  - change (CRC.crc8_bits 8 (Z.lxor (CRC.crc8_bits 8 0) 0)) with 0 in H.
    contradiction.
Qed.

Lemma crc8_detects_errors_in_one_byte_witness :
  corrupted_at
    [Z.lxor 0xBE 0x10; Z.lxor 0xEF 0; Z.lxor (CRC.crc8 [0xBE; 0xEF] 2) 0] 0.
Proof.
  apply (crc8_detects_errors_in_one_byte 0xBE 0xEF 0x10 0 0);
    unfold is_byte; lia.
Defined.

Lemma crc8_bytes_snoc data : forall x crc,
  CRC.crc8_bytes (S (length data)) (data ++ [x]) crc
  = CRC.crc8_bits 8
      (to_uint8 (Z.lxor (CRC.crc8_bytes (length data) data crc) x)).
Proof.
  induction data as [|y data IH]; intros x crc; [reflexivity|].
  cbn [length app]. 
  change (CRC.crc8_bytes (S (S (length data))) (y :: data ++ [x]) crc)
    with (CRC.crc8_bytes (S (length data)) (data ++ [x])
            (CRC.crc8_bits 8 (to_uint8 (Z.lxor crc y)))).
  rewrite IH. reflexivity.
Qed.

Lemma crc8_bytes_byte j : forall data crc,
  is_byte crc -> is_byte (CRC.crc8_bytes j data crc).
Proof.
  induction j as [|j IH]; intros data crc Hc; [exact Hc|].
  cbn [CRC.crc8_bytes]. apply IH.
  apply CRCFacts.crc8_bits_byte, CRCFacts.to_uint8_byte.
Qed.

(** X3. The checksum and the residue: a byte after the data is their
    checksum exactly when the checksum of the data and that byte
    together is zero. *)
Theorem crc8_residue_zero_iff_checksum (data : list Z) (x : Z) :
  (length data < 255)%nat ->
  is_byte x ->
  CRC.crc8 (data ++ [x]) (Z.of_nat (length data) + 1) = 0
  <-> x = CRC.crc8 data (Z.of_nat (length data)).
Proof.
  intros Hlen Hx. unfold CRC.crc8, to_uint8.
  rewrite !Z.mod_small by lia.
  replace (Z.to_nat (Z.of_nat (length data) + 1)) with (S (length data))
    by lia.
  rewrite Nat2Z.id, crc8_bytes_snoc.
  assert (Hc : is_byte (CRC.crc8_bytes (length data) data 255)).
  { apply crc8_bytes_byte. unfold is_byte. lia. }
  set (c := CRC.crc8_bytes (length data) data 255) in *.
  fold (to_uint8 (Z.lxor c x)).
  rewrite CRCFacts.to_uint8_id by now apply CRCFacts.lxor_byte.
  split.
  - intros H. apply CRCMore.crc8_bits_kernel in H;
      [| now apply CRCFacts.lxor_byte].
    apply Z.lxor_eq in H. now symmetry.
  - intros ->. rewrite Z.lxor_nilpotent. reflexivity.
Qed.

Lemma crc8_residue_zero_iff_checksum_witness :
  CRC.crc8 ([0xBE; 0xEF] ++ [0x92]) (Z.of_nat (length [0xBE; 0xEF]) + 1) = 0
  <-> 0x92 = CRC.crc8 [0xBE; 0xEF] (Z.of_nat (length [0xBE; 0xEF])).
Proof.
  apply (crc8_residue_zero_iff_checksum [0xBE; 0xEF] 0x92).
  - simpl. lia.
  - unfold is_byte. lia.
Defined.

Lemma flipped_bits_zero : flipped_bits 0 = 0.
Proof. reflexivity. Qed.

Lemma flipped_bits_nonneg e : 0 <= flipped_bits e.
Proof.
  unfold flipped_bits.
  induction [0; 1; 2; 3; 4; 5; 6; 7] as [|i l IH]; cbn [map fold_right];
    [lia|].
  destruct (Z.testbit e i); cbn [Z.b2z]; lia.
Qed.

Lemma light_errors_table ea eb :
  is_byte ea -> is_byte eb ->
  (3 <? flipped_bits ea + flipped_bits eb)
  || ((ea =? 0) && (eb =? 0))
  || (3 <? flipped_bits ea + flipped_bits eb
           + flipped_bits
               (CRC.crc8_bits 8 (Z.lxor (CRC.crc8_bits 8 ea) eb)))
  = true.
Proof.
  intros Ha Hb.
  assert (T : (let light := filter (fun e => flipped_bits e <=? 3)
                              (map Z.of_nat (seq 0 256)) in
               forallb
                 (fun ea =>
                    forallb
                      (fun eb =>
                         (3 <? flipped_bits ea + flipped_bits eb)
                         || ((ea =? 0) && (eb =? 0))
                         || (3 <? flipped_bits ea + flipped_bits eb
                                  + flipped_bits
                                      (CRC.crc8_bits 8
                                         (Z.lxor (CRC.crc8_bits 8 ea) eb))))
                      light)
                 light) = true)
    by (vm_compute; reflexivity).
  cbv zeta in T.
  assert (L : forall e, is_byte e -> flipped_bits e <= 3 ->
                In e (filter (fun e => flipped_bits e <=? 3)
                        (map Z.of_nat (seq 0 256)))).
  { intros e He Hw. apply filter_In. split.
    - apply in_map_iff. exists (Z.to_nat e). split.
      + apply Z2Nat.id. apply He.
      + apply in_seq. unfold is_byte in He. lia.
    - now apply Z.leb_le. }
  pose proof (flipped_bits_nonneg ea). pose proof (flipped_bits_nonneg eb).
  destruct (Z.ltb_spec 3 (flipped_bits ea + flipped_bits eb)) as [H3 | H3];
    [reflexivity|].
  rewrite forallb_forall in T.
  specialize (T ea (L ea Ha ltac:(lia))).
  rewrite forallb_forall in T.
  specialize (T eb (L eb Hb ltac:(lia))).
  destruct (Z.ltb_spec 3 (flipped_bits ea + flipped_bits eb)) as [H4 | _];
    [lia|].
  exact T.
Qed.

(** No error of one, two or three bits in the two data bytes has a
    checksum of so few bits that the whole error stays within three. *)
Lemma light_errors ea eb :
  is_byte ea -> is_byte eb ->
  flipped_bits ea + flipped_bits eb
  + flipped_bits (CRC.crc8_bits 8 (Z.lxor (CRC.crc8_bits 8 ea) eb)) <= 3 ->
  ea = 0 /\ eb = 0.
Proof.
  intros Ha Hb Hw.
  pose proof (light_errors_table ea eb Ha Hb) as K.
  pose proof (flipped_bits_nonneg ea).
  pose proof (flipped_bits_nonneg eb).
  pose proof (flipped_bits_nonneg
                (CRC.crc8_bits 8 (Z.lxor (CRC.crc8_bits 8 ea) eb))).
  apply orb_true_iff in K. destruct K as [K | K].
  - apply orb_true_iff in K. destruct K as [K | K].
    + apply Z.ltb_lt in K. lia.
    + apply andb_true_iff in K. destruct K as [K1 K2].
      apply Z.eqb_eq in K1, K2. now split.
  - apply Z.ltb_lt in K. lia.
Qed.

(** X4. The checksum detects every error of one, two or three flipped
    bits in a three-byte field, wherever the bits are: the code has
    Hamming distance 4 at this length. *)
Theorem crc8_detects_three_flipped_bits (a b ea eb ec : Z) :
  is_byte a -> is_byte b -> is_byte ea -> is_byte eb -> is_byte ec ->
  0 < flipped_bits ea + flipped_bits eb + flipped_bits ec <= 3 ->
  corrupted_at
    [Z.lxor a ea; Z.lxor b eb; Z.lxor (CRC.crc8 [a; b] 2) ec] 0.
Proof.
  intros Ha Hb Hea Heb Hec Hw.
  assert (E : CRC.crc8
                [Z.lxor a ea; Z.lxor b eb; Z.lxor (CRC.crc8 [a; b] 2) ec] 2
              = CRC.crc8 [Z.lxor a ea; Z.lxor b eb] 2).
  { apply (CRCMore.crc8_prefix [Z.lxor a ea; Z.lxor b eb]
             [Z.lxor (CRC.crc8 [a; b] 2) ec]). cbn. lia. }
  unfold corrupted_at. cbn [Nat.add skipn peek nth]. rewrite E.
  rewrite CRCMore.crc8_of_error by assumption.
  intros H. apply CRCMore.lxor_cancel in H. subst ec.
  destruct (light_errors ea eb Hea Heb) as [-> ->]; [lia|].
  change (CRC.crc8_bits 8 (Z.lxor (CRC.crc8_bits 8 0) 0)) with 0 in Hw.
  rewrite flipped_bits_zero in Hw. lia.
Qed.

Lemma crc8_detects_three_flipped_bits_witness :
  corrupted_at
    [Z.lxor 0xBE 0x81; Z.lxor 0xEF 0;
     Z.lxor (CRC.crc8 [0xBE; 0xEF] 2) 0x08] 0.
Proof.
  apply (crc8_detects_three_flipped_bits 0xBE 0xEF 0x81 0 0x08);
    unfold is_byte; try lia.
  vm_compute. split; [reflexivity | discriminate].
Defined.

(* ================================================================== *)
(** * Further properties of the driver *)
(* ================================================================== *)

Section DriverMore.

Context {B : Type} {TW : Wire.TwoWire B}.
Variable dbl : FP.format.

Ltac run :=
  unfold i2c_begin, i2c_setClock, i2c_beginTransmission, i2c_write,
    i2c_endTransmission, i2c_requestFrom, i2c_read;
  unfold bind, ret, when, raise, with_self, member, call, delay, assign.

Ltac tidy :=
  cbn -[Z.shiftr Z.shiftl Z.land Z.lor Z.eqb Z.add Z.mul Z.to_nat
        to_uint8 to_uint16 CRC.crc8 peek skipn command_bytes].

(** ** The two helpers, by what the bus returns *)

Lemma writeCommand_run c (w : World B) :
  let b0 := Wire.beginTransmission (_i2c_device_address (self w)) (wire w) in
  let n := fst (Wire.write (command_bytes c) b0) in
  let b1 := snd (Wire.write (command_bytes c) b0) in
  let r := fst (Wire.endTransmission b1) in
  let b2 := snd (Wire.endTransmission b1) in
  writeCommand c w
  = (r =? 0,
     {| self :=
          set_error_code
            (Z.lor (Z.lor (_error_code (self w))
                      (if n =? 2 then 0 else ERROR_WRITE_LEN))
               (if r =? 0 then 0 else ERROR_END_TRANSMISSION))
            (self w);
        wire := b2;
        trace := trace w
                 ++ [EvBeginTransmission (_i2c_device_address (self w));
                     EvWrite (command_bytes c); EvEndTransmission];
        heap := heap w |}).
Proof.
  intros b0 n b1 r b2. subst n b1 r b2.
  unfold writeCommand. fold (command_bytes c). run. tidy. fold b0.
  destruct (Wire.write (command_bytes c) b0) as [n b1]. tidy.
  destruct (Wire.endTransmission b1) as [r b2] eqn:Er.
  destruct (n =? 2); tidy; rewrite Er; tidy;
    destruct (r =? 0); tidy; rewrite ?Z.lor_0_r, <- !app_assoc;
    destruct w as [[a e h t u c'] b tr hp]; reflexivity.
Qed.

Lemma poke_middle pre x post v :
  poke (pre ++ x :: post) (length pre) v = pre ++ v :: post.
Proof.
  induction pre as [|p pre IH]; [reflexivity|].
  cbn [app length poke]. now rewrite IH.
Qed.

Lemma readBytes_loop_run n :
  forall pre post (w : World B),
    (n <= length post)%nat ->
    readBytes_loop n (length pre) (pre ++ post) w
    = (pre ++ map to_uint8 (fst (bus_reads n (wire w))) ++ skipn n post,
       {| self := self w; wire := snd (bus_reads n (wire w));
          trace := trace w ++ repeat EvRead n; heap := heap w |}).
Proof.
  induction n as [|n IH]; intros pre post w Hn.
  - cbn. rewrite app_nil_r. now destruct w.
  - destruct post as [|x post]; [cbn in Hn; lia|].
    cbn [readBytes_loop bus_reads]. run.
    destruct (Wire.read (wire w)) as [y b1].
    rewrite poke_middle.
    replace (S (length pre)) with (length (pre ++ [to_uint8 y]))
      by (rewrite length_app; cbn; lia).
    replace (pre ++ to_uint8 y :: post) with ((pre ++ [to_uint8 y]) ++ post)
      by now rewrite <- app_assoc.
    rewrite IH by (cbn in Hn; lia). tidy.
    destruct (bus_reads n b1) as [ys b2]. tidy.
    rewrite <- !app_assoc. reflexivity.
Qed.

Lemma readBytes_run buffer len (w : World B) :
  (Z.to_nat len <= length buffer)%nat ->
  let a := _i2c_device_address (self w) in
  let r := fst (Wire.requestFrom a len (wire w)) in
  let b1 := snd (Wire.requestFrom a len (wire w)) in
  readBytes buffer len w
  = if r =? len
    then
      ((true,
        map to_uint8 (fst (bus_reads (Z.to_nat len) b1))
        ++ skipn (Z.to_nat len) buffer),
       {| self := self w; wire := snd (bus_reads (Z.to_nat len) b1);
          trace := trace w
                   ++ EvRequestFrom a len :: repeat EvRead (Z.to_nat len);
          heap := heap w |})
    else
      ((false, buffer),
       {| self := set_error_code
                    (Z.lor (_error_code (self w)) ERROR_REQUEST_LEN)
                    (self w);
          wire := b1; trace := trace w ++ [EvRequestFrom a len];
          heap := heap w |}).
Proof.
  intros Hlen a r b1. subst r b1.
  unfold readBytes. run. tidy. fold a.
  destruct (Wire.requestFrom a len (wire w)) as [r b1]. tidy.
  destruct (r =? len); tidy; [|reflexivity].
  pose proof (readBytes_loop_run (Z.to_nat len) [] buffer
                {| self := self w; wire := b1;
                   trace := trace w ++ [EvRequestFrom a len];
                   heap := heap w |} Hlen) as H.
  cbn [length app] in H. rewrite H. tidy.
  rewrite <- app_assoc. reflexivity.
Qed.

Lemma resetSensor_run c (w : World B) :
  c = CMD_SOFT_RESET \/ c = CMD_GCALL_RESET ->
  let b0 := Wire.beginTransmission (_i2c_device_address (self w)) (wire w) in
  let n := fst (Wire.write (command_bytes c) b0) in
  let b1 := snd (Wire.write (command_bytes c) b0) in
  let b2 := snd (Wire.endTransmission b1) in
  let r := fst (Wire.endTransmission b2) in
  let b3 := snd (Wire.endTransmission b2) in
  resetSensor c w
  = (r =? 0,
     {| self :=
          set_error_code
            (Z.lor (Z.lor (_error_code (self w))
                      (if n =? 2 then 0 else ERROR_WRITE_LEN))
               (if r =? 0 then 0 else ERROR_END_TRANSMISSION))
            (self w);
        wire := b3;
        trace := trace w
                 ++ [EvBeginTransmission (_i2c_device_address (self w));
                     EvWrite (command_bytes c);
                     EvEndTransmission; EvEndTransmission];
        heap := heap w |}).
Proof.
  intros Hc b0 n b1 b2 r b3. subst n b1 b2 r b3.
  unfold resetSensor. fold (command_bytes c).
  assert (Hv : negb (c =? CMD_SOFT_RESET) && negb (c =? CMD_GCALL_RESET)
               = false) by (destruct Hc as [-> | ->]; reflexivity).
  rewrite Hv. run. tidy. fold b0.
  destruct (Wire.write (command_bytes c) b0) as [n b1]. tidy.
  destruct (Wire.endTransmission b1) as [r1 b2] eqn:E1.
  destruct (Wire.endTransmission b2) as [r b3] eqn:E2.
  destruct (n =? 2); tidy; rewrite E1; tidy; rewrite E2; tidy;
    destruct (r =? 0); tidy; rewrite ?Z.lor_0_r, <- !app_assoc;
    destruct w as [[a e h t u c'] b tr hp]; reflexivity.
Qed.

(** ** Faults in the accumulator *)

Lemma has_fault_lor_r x f : has_fault (Z.lor x f) f.
Proof.
  unfold has_fault. apply Z.bits_inj'. intros n Hn.
  rewrite Z.land_spec, Z.lor_spec.
  destruct (Z.testbit x n), (Z.testbit f n); reflexivity.
Qed.

Lemma has_fault_lor_l x y f : has_fault x f -> has_fault (Z.lor x y) f.
Proof.
  unfold has_fault. intros H. apply Z.bits_inj'. intros n Hn.
  apply (f_equal (fun z => Z.testbit z n)) in H.
  rewrite Z.land_spec in H. rewrite Z.land_spec, Z.lor_spec.
  destruct (Z.testbit x n), (Z.testbit y n), (Z.testbit f n);
    cbn in *; congruence.
Qed.

(** X5. [writeCommand] succeeds exactly when [endTransmission] returns
    0: a write of another length than 2 is recorded as a write-length
    fault and does not fail the call; a transmission that ends with an
    error is recorded and fails it; when both go well the accumulator is
    what it was. *)
Theorem writeCommand_short_write_is_not_fatal (c : Z) (w : World B) :
  let b0 := Wire.beginTransmission (_i2c_device_address (self w)) (wire w) in
  let n := fst (Wire.write (command_bytes c) b0) in
  let r := fst (Wire.endTransmission (snd (Wire.write (command_bytes c) b0))) in
  let e' := _error_code (self (snd (writeCommand c w))) in
  fst (writeCommand c w) = (r =? 0)
  /\ (n <> 2 -> has_fault e' ERROR_WRITE_LEN)
  /\ (r <> 0 -> has_fault e' ERROR_END_TRANSMISSION)
  /\ (n = 2 -> r = 0 -> e' = _error_code (self w)).
Proof.
  intros b0 n r e'. subst e'. rewrite (writeCommand_run c w).
  fold b0. fold n. fold r. cbn [fst snd self _error_code set_error_code].
  split; [reflexivity|]. split; [|split].
  - intros Hn. apply Z.eqb_neq in Hn. rewrite Hn.
    apply has_fault_lor_l, has_fault_lor_r.
  - intros Hr. apply Z.eqb_neq in Hr. rewrite Hr. apply has_fault_lor_r.
  - intros -> ->. cbn. now rewrite !Z.lor_0_r.
Qed.

Lemma command_bytes_big_endian c :
  0 <= c < 65536 -> command_bytes c = [c / 256; c mod 256].
Proof.
  intros Hc. unfold command_bytes, to_uint8.
  rewrite Z.shiftr_div_pow2 by lia. change (2 ^ 8) with 256.
  change 255 with (Z.ones 8). rewrite Z.land_ones by lia.
  change (2 ^ 8) with 256.
  rewrite (Z.mod_small (c / 256)); [reflexivity|].
  split; [apply Z.div_pos; lia | apply Z.div_lt_upper_bound; lia].
Qed.

(** X6. A 16-bit command goes on the wire as two bytes, the high byte
    first: [writeCommand] makes one transaction to the address of the
    sensor, and writes the two bytes [hi], [lo] with
    [256 * hi + lo = command]. *)
Theorem writeCommand_sends_command_big_endian (c : Z) (w : World B) :
  0 <= c < 65536 ->
  exists hi lo,
    trace (snd (writeCommand c w))
    = trace w ++ [EvBeginTransmission (_i2c_device_address (self w));
                  EvWrite [hi; lo]; EvEndTransmission]
    /\ is_byte hi /\ is_byte lo /\ 256 * hi + lo = c.
Proof.
  intros Hc. exists (c / 256), (c mod 256).
  rewrite (writeCommand_run c w). cbn [snd trace].
  rewrite (command_bytes_big_endian c Hc).
  split; [reflexivity|]. unfold is_byte.
  pose proof (Z.div_mod c 256). pose proof (Z.mod_pos_bound c 256).
  assert (0 <= c / 256 < 256)
    by (split; [apply Z.div_pos; lia | apply Z.div_lt_upper_bound; lia]).
  lia.
Qed.

(** X7. A short read: when [requestFrom] does not return the length
    asked for, [readBytes] returns [false], leaves the buffer as it is,
    calls [read] not once, and records the request-length fault. *)
Theorem readBytes_short_read_keeps_buffer
  (buffer : list Z) (len : Z) (w : World B) :
  (Z.to_nat len <= length buffer)%nat ->
  fst (Wire.requestFrom (_i2c_device_address (self w)) len (wire w)) <> len ->
  let r := readBytes buffer len w in
  fst r = (false, buffer)
  /\ trace (snd r)
     = trace w ++ [EvRequestFrom (_i2c_device_address (self w)) len]
  /\ _error_code (self (snd r))
     = Z.lor (_error_code (self w)) ERROR_REQUEST_LEN.
Proof.
  intros Hlen Hr r. subst r. rewrite (readBytes_run buffer len w Hlen).
  apply Z.eqb_neq in Hr. rewrite Hr. repeat split.
Qed.

(** X8. A full read: when [requestFrom] returns the length asked for,
    [readBytes] calls [read] that many times and stores the results in
    the buffer in the order of arrival, each narrowed to a byte; the
    rest of the buffer and the accumulator are what they were. *)
Theorem readBytes_fills_buffer_in_order
  (buffer : list Z) (len : Z) (w : World B) :
  (Z.to_nat len <= length buffer)%nat ->
  fst (Wire.requestFrom (_i2c_device_address (self w)) len (wire w)) = len ->
  let b1 := snd (Wire.requestFrom (_i2c_device_address (self w)) len
                   (wire w)) in
  let r := readBytes buffer len w in
  fst r = (true,
           map to_uint8 (fst (bus_reads (Z.to_nat len) b1))
           ++ skipn (Z.to_nat len) buffer)
  /\ length (snd (fst r)) = length buffer
  /\ trace (snd r)
     = trace w ++ EvRequestFrom (_i2c_device_address (self w)) len
               :: repeat EvRead (Z.to_nat len)
  /\ self (snd r) = self w.
Proof.
  intros Hlen Hr b1 r. subst r. rewrite (readBytes_run buffer len w Hlen).
  apply Z.eqb_eq in Hr. rewrite Hr. fold b1. cbn [fst snd trace self].
  repeat split.
  assert (Hn : forall n (b : B), length (fst (bus_reads n b)) = n).
  { induction n as [|n IH]; intros b; [reflexivity|].
    cbn [bus_reads]. destruct (Wire.read b) as [x b'].
    specialize (IH b'). destruct (bus_reads n b') as [xs b''].
    cbn in *. now rewrite IH. }
  rewrite length_app, length_map, Hn, length_skipn. lia.
Qed.

(** ** Relations that every step of a computation keeps *)

Section Preserved.

Variable I : World B -> World B -> Prop.
Hypothesis I_refl : forall w, I w w.
Hypothesis I_trans : forall w1 w2 w3, I w1 w2 -> I w2 w3 -> I w1 w3.

Lemma preserves_ret {A} (a : A) : preserves I (ret (B := B) a).
Proof. intros w. apply I_refl. Qed.

Lemma preserves_member {A} (f : TD_SHT31 -> A) :
  preserves I (member (B := B) f).
Proof. intros w. apply I_refl. Qed.

Lemma preserves_bind {A C} (m : M B A) (k : A -> M B C) :
  preserves I m -> (forall x, preserves I (k x)) -> preserves I (bind m k).
Proof.
  intros Hm Hk w. unfold bind. specialize (Hm w).
  destruct (m w) as [x w1]. cbn [snd] in Hm.
  apply (I_trans _ _ _ Hm). apply Hk.
Qed.

Lemma preserves_when c (m : M B unit) :
  preserves I m -> preserves I (when c m).
Proof. intros Hm. destruct c; [exact Hm | intros w; apply I_refl]. Qed.

Lemma preserves_readBytes_loop n :
  preserves I i2c_read ->
  forall i buffer, preserves I (readBytes_loop n i buffer).
Proof.
  intros Hr. induction n as [|n IH]; intros i buffer; cbn [readBytes_loop].
  - apply preserves_ret.
  - apply preserves_bind; [exact Hr | intros b; apply IH].
Qed.


End Preserved.

Ltac atom fin :=
  let w := fresh "w" in
  intros w; run;
  repeat match goal with
         | |- context [let (_, _) := ?x in _] => destruct x
         end;
  cbn [fst snd self wire trace heap]; fin.

Ltac preserving refl trans known leaf :=
  repeat (cbv zeta;
          first
            [ apply (preserves_ret _ refl)
            | apply (preserves_member _ refl)
            | known
            | match goal with
              | |- preserves _ (bind _ _) =>
                  apply (preserves_bind _ trans); [|intros ?]
              | |- preserves _ (when _ _) => apply (preserves_when _ refl)
              | |- preserves _ (readBytes_loop _ _ _) =>
                  apply (preserves_readBytes_loop _ refl trans)
              | |- preserves _ (if ?c then _ else _) => destruct c
              | |- preserves _ (let (_, _) := ?r in _) => destruct r
              end
            | solve [leaf] ]).

Ltac unfold_driver :=
  unfold begin, isSensorConnected, set_defaults, resetSensor, runSingleShot,
    clearSensorStatus, readSensorStatus, readSensorData, writeCommand,
    readBytes.

(** ** The accumulator holds raised faults only *)






(** ** Measurement and configuration *)

Lemma untouched_refl (w : World B) : untouched w w.
Proof. repeat split. Qed.

Lemma untouched_trans (w1 w2 w3 : World B) :
  untouched w1 w2 -> untouched w2 w3 -> untouched w1 w3.
Proof.
  unfold untouched, same_measurement, same_configuration.
  intros (H1 & H2) (H3 & H4). intuition congruence.
Qed.

Lemma same_configuration_refl (w : World B) : same_configuration w w.
Proof. repeat split. Qed.

Lemma same_configuration_trans (w1 w2 w3 : World B) :
  same_configuration w1 w2 -> same_configuration w2 w3 ->
  same_configuration w1 w3.
Proof. unfold same_configuration. intuition congruence. Qed.

Ltac untouched_atom :=
  atom ltac:(unfold untouched, same_measurement, same_configuration;
             cbn [self heap _temperature _humidity _i2c_device_address
                  _useCRC _tUnit set_error_code];
             repeat split).

Ltac configuration_atom :=
  atom ltac:(unfold same_configuration;
             cbn [self _i2c_device_address _useCRC _tUnit set_error_code
                  set_temperature set_humidity];
             repeat split).

Lemma untouched_begin : preserves untouched begin.
Proof.
  unfold_driver. preserving untouched_refl untouched_trans fail untouched_atom.
Qed.

Lemma untouched_isSensorConnected : preserves untouched isSensorConnected.
Proof.
  unfold_driver. preserving untouched_refl untouched_trans fail untouched_atom.
Qed.

Lemma untouched_resetSensor c : preserves untouched (resetSensor c).
Proof.
  unfold_driver. preserving untouched_refl untouched_trans fail untouched_atom.
Qed.

Lemma untouched_clearSensorStatus : preserves untouched clearSensorStatus.
Proof.
  unfold_driver. preserving untouched_refl untouched_trans fail untouched_atom.
Qed.

Lemma untouched_readSensorStatus : preserves untouched readSensorStatus.
Proof.
  unfold_driver. preserving untouched_refl untouched_trans fail untouched_atom.
Qed.

Lemma same_configuration_runSingleShot c fT fH :
  preserves same_configuration (runSingleShot dbl c fT fH).
Proof.
  unfold_driver.
  preserving same_configuration_refl same_configuration_trans fail configuration_atom.
Qed.

(** ** No time spent *)

Lemma no_wait_refl (w : World B) : no_wait w w.
Proof. reflexivity. Qed.

Lemma no_wait_trans (w1 w2 w3 : World B) :
  no_wait w1 w2 -> no_wait w2 w3 -> no_wait w1 w3.
Proof. unfold no_wait. congruence. Qed.

Ltac no_wait_atom :=
  atom ltac:(unfold no_wait; cbn [trace];
             first [ reflexivity
                   | rewrite delayed_app; cbn [delayed]; lia ]).

Lemma no_wait_writeCommand c : preserves no_wait (writeCommand c).
Proof.
  unfold_driver. preserving no_wait_refl no_wait_trans fail no_wait_atom.
Qed.

Lemma no_wait_readSensorData : preserves no_wait (readSensorData dbl).
Proof.
  unfold_driver. preserving no_wait_refl no_wait_trans fail no_wait_atom.
Qed.

Lemma no_wait_begin : preserves no_wait begin.
Proof.
  unfold_driver. preserving no_wait_refl no_wait_trans fail no_wait_atom.
Qed.

Lemma no_wait_isSensorConnected : preserves no_wait isSensorConnected.
Proof.
  unfold_driver. preserving no_wait_refl no_wait_trans fail no_wait_atom.
Qed.

Lemma no_wait_set_defaults u t :
  preserves (B := B) no_wait (set_defaults u t).
Proof.
  unfold_driver. preserving no_wait_refl no_wait_trans fail no_wait_atom.
Qed.

Lemma no_wait_resetSensor c : preserves no_wait (resetSensor c).
Proof.
  unfold_driver. preserving no_wait_refl no_wait_trans fail no_wait_atom.
Qed.

Lemma no_wait_clearSensorStatus : preserves no_wait clearSensorStatus.
Proof.
  unfold_driver. preserving no_wait_refl no_wait_trans fail no_wait_atom.
Qed.

Lemma no_wait_readSensorStatus : preserves no_wait readSensorStatus.
Proof.
  unfold_driver. preserving no_wait_refl no_wait_trans fail no_wait_atom.
Qed.

(** ** Expected calls *)












(** ** What every operation keeps *)



(** X11. Only [runSingleShot] changes the temperature and the humidity
    of the session and the caller's variables, and only [set_defaults]
    changes the configuration. *)
Theorem operations_frame (op : Operation) (w : World B) :
  let w' := snd (perform dbl op w) in
  (leaves_measurement op = true -> same_measurement w w')
  /\ (leaves_configuration op = true -> same_configuration w w').
Proof.
  destruct op; cbn [perform snd leaves_measurement leaves_configuration];
    (split; intros H; try discriminate H).
  - apply untouched_begin.
  - apply untouched_begin.
  - apply untouched_isSensorConnected.
  - apply untouched_isSensorConnected.
  - repeat split.
  - apply untouched_resetSensor.
  - apply untouched_resetSensor.
  - apply same_configuration_runSingleShot.
  - apply untouched_clearSensorStatus.
  - apply untouched_clearSensorStatus.
  - apply untouched_readSensorStatus.
  - apply untouched_readSensorStatus.
Qed.

Lemma runSingleShot_wait c fT fH (w : World B) :
  delayed (trace (snd (runSingleShot dbl c fT fH w))) - delayed (trace w)
  = if existsb (Z.eqb c) single_shot_commands && fst (writeCommand c w)
    then minimum_delay c
    else 0.
Proof.
  assert (Hb : existsb (Z.eqb c) single_shot_commands
               = negb (negb (c =? CMD_SS_CSD_HIGH)
                       && negb (c =? CMD_SS_CSD_MEDIUM)
                       && negb (c =? CMD_SS_CSD_LOW))).
  { unfold single_shot_commands. cbn [existsb].
    destruct (c =? CMD_SS_CSD_HIGH), (c =? CMD_SS_CSD_MEDIUM),
      (c =? CMD_SS_CSD_LOW); reflexivity. }
  rewrite Hb. clear Hb.
  destruct (negb (c =? CMD_SS_CSD_HIGH) && negb (c =? CMD_SS_CSD_MEDIUM)
            && negb (c =? CMD_SS_CSD_LOW)) eqn:Hv; cbn [negb andb].
  - unfold runSingleShot. rewrite Hv. run. cbn [snd trace]. lia.
  - pose proof (no_wait_writeCommand c w) as Hw. unfold no_wait in Hw.
    destruct (writeCommand c w) as [[|] w1] eqn:Ew; cbn [fst snd] in *.
    + apply single_shot_dec in Hv.
      rewrite (runSingleShot_unfold dbl c fT fH w w1 Hv Ew).
      pose proof (no_wait_readSensorData
                    (snd (delay (minimum_delay c) w1))) as Hr.
      unfold no_wait in Hr.
      destruct (readSensorData dbl (snd (delay (minimum_delay c) w1)))
        as [[|] w3];
        cbn [snd trace] in *; rewrite Hr; unfold delay; cbn [snd trace];
        rewrite delayed_app, Hw; cbn [delayed]; lia.
    + unfold runSingleShot. rewrite Hv. unfold bind at 1.
      rewrite Ew. cbn [negb]. unfold ret. cbn [snd]. lia.
Qed.

(** X12. What an operation spends in [delay], exactly: [runSingleShot]
    on one of the three single-shot commands, once the command is
    written, spends the delay of the command, 16, 7 or 5 ms; a
    [runSingleShot] that is rejected or whose write fails spends
    nothing, and no other operation does.  No operation blocks for
    more than 16 ms. *)
Theorem operations_block_at_most_16_ms (op : Operation) (w : World B) :
  let d := delayed (trace (snd (perform dbl op w))) - delayed (trace w) in
  0 <= d <= 16
  /\ d = match op with
         | RunSingleShot c _ _ =>
             if existsb (Z.eqb c) single_shot_commands
                && fst (writeCommand c w)
             then minimum_delay c
             else 0
         | _ => 0
         end.
Proof.
  cbv zeta.
  assert (H0 : forall w' : World B, no_wait w w' ->
                 0 <= delayed (trace w') - delayed (trace w) <= 16
                 /\ delayed (trace w') - delayed (trace w) = 0).
  { intros w' Hw. unfold no_wait in Hw. rewrite Hw. lia. }
  destruct op; cbn [perform snd].
  - apply H0, no_wait_begin.
  - apply H0, no_wait_isSensorConnected.
  - apply H0, no_wait_set_defaults.
  - apply H0, no_wait_resetSensor.
  - rewrite (runSingleShot_wait u16Command fT fH w).
    split; [|reflexivity].
    destruct (existsb (Z.eqb u16Command) single_shot_commands) eqn:Hc;
      cbn [andb]; [|lia].
    destruct (fst (writeCommand u16Command w)); [|lia].
    unfold single_shot_commands in Hc. cbn [existsb] in Hc.
    unfold minimum_delay.
    destruct (u16Command =? CMD_SS_CSD_HIGH); [lia|].
    destruct (u16Command =? CMD_SS_CSD_MEDIUM); [lia|].
    destruct (u16Command =? CMD_SS_CSD_LOW); [lia | discriminate Hc].
  - apply H0, no_wait_clearSensorStatus.
  - apply H0, no_wait_readSensorStatus.
Qed.

(** ** Results and faults *)

Lemma begin_run (w : World B) :
  begin w
  = resetSensor CMD_GCALL_RESET
      {| self := self w;
         wire := Wire.setClock 100000 (Wire.begin (wire w));
         trace := trace w ++ [EvBegin; EvSetClock 100000];
         heap := heap w |}.
Proof.
  unfold begin, bind, i2c_begin, i2c_setClock, call.
  cbn [fst snd self wire trace heap]. now rewrite <- app_assoc.
Qed.

(** X13. [resetSensor] on one of its two commands ends the transmission
    twice and returns whether the second call returned 0: what the
    first call returns, the one that sends the command, is dropped, so
    a reset command that is not acknowledged passes for sent when the
    empty transmission after it is acknowledged. *)
Theorem resetSensor_drops_first_acknowledgement (c : Z) (w : World B) :
  c = CMD_SOFT_RESET \/ c = CMD_GCALL_RESET ->
  let a := _i2c_device_address (self w) in
  let b1 := snd (Wire.write (command_bytes c)
                   (Wire.beginTransmission a (wire w))) in
  let second := fst (Wire.endTransmission (snd (Wire.endTransmission b1))) in
  let r := resetSensor c w in
  fst r = (second =? 0)
  /\ trace (snd r)
     = trace w ++ [EvBeginTransmission a; EvWrite (command_bytes c);
                   EvEndTransmission; EvEndTransmission]
  /\ (second = 0 ->
      Z.land (_error_code (self (snd r))) ERROR_END_TRANSMISSION
      = Z.land (_error_code (self w)) ERROR_END_TRANSMISSION).
Proof.
  intros Hc a b1 second r. subst r. rewrite (resetSensor_run c w Hc).
  fold a. fold b1. fold second.
  cbn [fst snd trace self _error_code set_error_code].
  split; [reflexivity|]. split; [reflexivity|].
  intros ->. cbn [Z.eqb]. rewrite Z.lor_0_r, Z.land_lor_distr_l.
  destruct (_ =? 2); cbn; now rewrite Z.lor_0_r.
Qed.

(** X14. [begin] starts the bus, sets its clock to 100 kHz and sends
    the general-call reset bytes 0x00 0x06 to the address of the
    session; the command is always accepted, and the result is that of
    the second end of transmission. *)
Theorem begin_sends_general_call_reset (w : World B) :
  let a := _i2c_device_address (self w) in
  let b0 := Wire.setClock 100000 (Wire.begin (wire w)) in
  let b1 := snd (Wire.write [0x00; 0x06] (Wire.beginTransmission a b0)) in
  let second := fst (Wire.endTransmission (snd (Wire.endTransmission b1))) in
  fst (begin w) = (second =? 0)
  /\ trace (snd (begin w))
     = trace w ++ [EvBegin; EvSetClock 100000; EvBeginTransmission a;
                   EvWrite [0x00; 0x06];
                   EvEndTransmission; EvEndTransmission]
  /\ Z.land (_error_code (self (snd (begin w)))) 0x100
     = Z.land (_error_code (self w)) 0x100.
Proof.
  intros a b0 b1 second. rewrite (begin_run w).
  rewrite (resetSensor_run CMD_GCALL_RESET _ (or_intror eq_refl)).
  change (command_bytes CMD_GCALL_RESET) with [0x00; 0x06].
  cbn [fst snd trace self wire heap _error_code set_error_code
       _i2c_device_address].
  fold a. fold b0. fold b1. fold second.
  split; [reflexivity|]. split; [now rewrite <- app_assoc|].
  rewrite !Z.land_lor_distr_l.
  destruct (_ =? 2); destruct (second =? 0); cbn; now rewrite !Z.lor_0_r.
Qed.

Lemma fatal_lor e x :
  Z.land e FATAL_FAULTS = 0 ->
  Z.land (Z.lor e x) FATAL_FAULTS = Z.land x FATAL_FAULTS.
Proof. intros H. now rewrite Z.land_lor_distr_l, H, Z.lor_0_l. Qed.

Lemma fatal_write_len e :
  Z.land e FATAL_FAULTS = 0 ->
  forall n, Z.land (Z.lor e (if n =? 2 then 0 else ERROR_WRITE_LEN))
              FATAL_FAULTS = 0.
Proof.
  intros H n. rewrite (fatal_lor _ _ H). now destruct (n =? 2).
Qed.

Ltac told :=
  unfold told_by_faults;
  cbn [fst snd self _error_code set_error_code set_temperature
       set_humidity with_error_code];
  rewrite ?fatal_lor by (first [assumption | apply fatal_write_len;
                                             assumption]);
  first [ assumption
        | split; intros; (reflexivity || discriminate || assumption)
        | split; intros; congruence ].

Lemma told_writeCommand c (w : World B) :
  Z.land (_error_code (self w)) FATAL_FAULTS = 0 ->
  told_by_faults (writeCommand c w).
Proof.
  intros He. rewrite (writeCommand_run c w).
  destruct (fst (Wire.endTransmission _) =? 0); told.
Qed.







(** X16. [clearSensorStatus] returns [true] also when the command is
    not sent, but the accumulator tells: when no fault that fails a
    call is pending, the command 0x30 0x41 was acknowledged exactly
    when none is in the accumulator after the call. *)
Theorem clearSensorStatus_failure_told_by_faults (w : World B) :
  Z.land (_error_code (self w)) FATAL_FAULTS = 0 ->
  let a := _i2c_device_address (self w) in
  let acknowledged :=
    fst (Wire.endTransmission
           (snd (Wire.write [0x30; 0x41]
                   (Wire.beginTransmission a (wire w))))) in
  let r := clearSensorStatus w in
  (acknowledged = 0
   <-> Z.land (_error_code (self (snd r))) FATAL_FAULTS = 0)
  /\ trace (snd r)
     = trace w ++ [EvBeginTransmission a; EvWrite [0x30; 0x41];
                   EvEndTransmission].
Proof.
  intros He a acknowledged r.
  assert (R : snd r = snd (writeCommand CMD_CLEAR_STATUS w)).
  { subst r. unfold clearSensorStatus, bind.
    destruct (writeCommand CMD_CLEAR_STATUS w) as [[|] w1]; reflexivity. }
  rewrite R. clear R r.
  pose proof (told_writeCommand CMD_CLEAR_STATUS w He) as Hw.
  unfold told_by_faults in Hw.
  rewrite (writeCommand_run CMD_CLEAR_STATUS w) in *.
  change (command_bytes CMD_CLEAR_STATUS) with [0x30; 0x41] in *.
  fold a in Hw |- *. fold acknowledged in Hw |- *.
  cbn [fst snd trace] in *. split; [|reflexivity].
  rewrite <- Hw. apply iff_sym, Z.eqb_eq.
Qed.

(** ** The measurement and the status, end to end *)

(** X17. A single-shot measurement that goes through: the command is
    written, six bytes come back and, when the checksums are enforced,
    both match.  [runSingleShot] then returns [true]; the session and
    the caller's variables hold the values converted from the two
    codes of the response; when [fT] and [fH] are the same variable it
    holds the humidity; no other variable changes, and no fault is
    added to those of the write. *)
Theorem runSingleShot_delivers_converted_values
  (c : Z) (fT fH : pointer) (w w1 w2 : World B) (buffer : list Z) :
  In c single_shot_commands ->
  writeCommand c w = (true, w1) ->
  readBytes [0; 0; 0; 0; 0; 0] 6 (snd (delay (minimum_delay c) w1))
  = (true, buffer, w2) ->
  (_useCRC (self w) = ENABLE_CRC ->
   ~ corrupted_at buffer 0 /\ ~ corrupted_at buffer 3) ->
  let r := runSingleShot dbl c fT fH w in
  let t := if _tUnit (self w) then celsius_of dbl (code_at buffer 0)
           else farenheit_of dbl (code_at buffer 0) in
  let h := humidity_of dbl (code_at buffer 3) in
  fst r = true
  /\ _temperature (self (snd r)) = t
  /\ _humidity (self (snd r)) = h
  /\ heap (snd r) fH = h
  /\ (fT <> fH -> heap (snd r) fT = t)
  /\ (forall p, p <> fT -> p <> fH -> heap (snd r) p = heap w p)
  /\ _error_code (self (snd r)) = _error_code (self w1).
Proof.
  intros Hc Ew Er Hcrc r t h. subst r.
  rewrite (runSingleShot_unfold dbl c fT fH w w1 Hc Ew).
  set (w0 := snd (delay (minimum_delay c) w1)) in *.
  destruct (readBytes_ok _ _ _ _ _ (zeros_bytes 6) Er) as [Hb Hs].
  destruct (transparent_writeCommand c w) as [(_ & _ & Hh) (_ & Hu & Hn)].
  rewrite Ew in Hh, Hu, Hn. cbn [snd] in Hh, Hu, Hn.
  destruct (transparent_readBytes [0; 0; 0; 0; 0; 0] 6 w0)
    as [(_ & _ & Hh') _].
  rewrite Er in Hh'. cbn [snd] in Hh'.
  assert (Hs0 : self w0 = self w1) by reflexivity.
  assert (Hh0 : heap w0 = heap w1) by reflexivity.
  rewrite (readSensorData_unfold dbl w0 w2 buffer true Er).
  rewrite !code_at_uint16 by exact Hb. rewrite Hs, Hs0, Hu, Hn.
  assert (C0 : _useCRC (self w)
               && negb (peek buffer 2 =? CRC.crc8 buffer 2) = false).
  { destruct (_useCRC (self w)); [|reflexivity].
    destruct (Hcrc eq_refl) as [H0 _]. unfold corrupted_at in H0.
    cbn [Nat.add] in H0. change (skipn 0 buffer) with buffer in H0.
    destruct (Z.eqb_spec (peek buffer 2) (CRC.crc8 buffer 2));
      [reflexivity | contradiction]. }
  assert (C3 : _useCRC (self w)
               && negb (peek buffer 5 =? CRC.crc8 (skipn 3 buffer) 2)
               = false).
  { destruct (_useCRC (self w)); [|reflexivity].
    destruct (Hcrc eq_refl) as [_ H3]. unfold corrupted_at in H3.
    cbn [Nat.add] in H3.
    destruct (Z.eqb_spec (peek buffer 5) (CRC.crc8 (skipn 3 buffer) 2));
      [reflexivity | contradiction]. }
  rewrite C0, C3.
  cbn [negb fst snd self heap _temperature _humidity _error_code
       set_humidity set_temperature].
  fold t. fold h. rewrite Hh', Hh0, Hh. unfold store.
  split; [reflexivity|]. split; [reflexivity|]. split; [reflexivity|].
  split; [now rewrite Nat.eqb_refl|].
  split.
  - intros Hd. apply Nat.eqb_neq in Hd. now rewrite Hd, Nat.eqb_refl.
  - split; [|reflexivity]. intros p H1 H2.
    apply Nat.eqb_neq in H1, H2. now rewrite H2, H1.
Qed.

Lemma app_not_nil_neq {A : Type} (l tl : list A) :
  tl <> [] -> l ++ tl <> l.
Proof.
  intros Hn E. apply (f_equal (@length A)) in E.
  rewrite length_app in E. destruct tl; [contradiction|].
  cbn in E. lia.
Qed.

(** X18. [runSingleShot] talks to the bus exactly on the three
    single-shot commands without clock stretching: on any other
    command, the status and the reset commands also, it returns
    [false] with the wrong-command fault and nothing else changes. *)
Theorem runSingleShot_uses_bus_iff_single_shot
  (c : Z) (fT fH : pointer) (w : World B) :
  let r := runSingleShot dbl c fT fH w in
  (In c single_shot_commands <-> trace (snd r) <> trace w)
  /\ (~ In c single_shot_commands ->
      r = (false,
           with_error_code
             (Z.lor (_error_code (self w)) ERROR_WRONG_COMMAND) w)).
Proof.
  intros r. subst r.
  destruct (negb (c =? CMD_SS_CSD_HIGH) && negb (c =? CMD_SS_CSD_MEDIUM)
            && negb (c =? CMD_SS_CSD_LOW)) eqn:Hv.
  - assert (Hn : ~ In c single_shot_commands).
    { intros Hc. apply single_shot_dec in Hc. congruence. }
    assert (E : runSingleShot dbl c fT fH w
                = (false,
                   with_error_code
                     (Z.lor (_error_code (self w)) ERROR_WRONG_COMMAND) w)).
    { unfold runSingleShot. rewrite Hv. reflexivity. }
    rewrite E. cbn [snd with_error_code trace].
    split; [|reflexivity]. split; [contradiction | congruence].
  - apply single_shot_dec in Hv. split; [|contradiction].
    split; [intros _ | intros _; exact Hv].
    pose proof (writeCommand_run c w) as Ew. cbv zeta in Ew.
    destruct (fst (Wire.endTransmission _) =? 0) eqn:Hr.
    + rewrite (runSingleShot_unfold dbl c fT fH w _ Hv Ew).
      match goal with
      | |- context [readSensorData dbl ?w0] =>
          destruct (readBytes_trace [0; 0; 0; 0; 0; 0] 6 w0)
            as (reads & Ht & _);
          destruct (readBytes [0; 0; 0; 0; 0; 0] 6 w0)
            as [[ok buffer] w3] eqn:Er;
          rewrite (readSensorData_unfold dbl w0 w3 buffer ok Er)
      end.
      cbn [snd delay trace self] in Ht.
      assert (Hne : trace w3 <> trace w).
      { rewrite Ht, <- !app_assoc. apply app_not_nil_neq. discriminate. }
      destruct ok; cbn [negb]; [|exact Hne].
      destruct (_useCRC (self w3) && negb (_ =? _)); [exact Hne|].
      destruct (_useCRC (self w3) && negb (_ =? _)); exact Hne.
    + unfold runSingleShot. apply single_shot_dec in Hv. rewrite Hv.
      unfold bind at 1. rewrite Ew. cbn [negb ret snd trace].
      apply app_not_nil_neq. discriminate.
Qed.

(** X19. The status read and its sentinel: when no fault that fails a
    call is pending, the call has delivered the status word, made of
    the two bytes read, exactly when none is in the accumulator after
    it; a word 0xFFFF that the sensor sent is told from the 0xFFFF of a
    failure by [getLastError]. *)
Theorem readSensorStatus_sentinel_told_by_faults (w : World B) :
  Z.land (_error_code (self w)) FATAL_FAULTS = 0 ->
  let (written, w0) := writeCommand CMD_READ_STATUS w in
  let '(ok, buffer, w1) := readBytes [0; 0; 0] 3 w0 in
  let r := readSensorStatus w in
  let faults := Z.land (_error_code (self (snd r))) FATAL_FAULTS in
  (faults = 0 <->
   written = true /\ ok = true /\ ~ corrupted_at buffer 0)
  /\ (faults = 0 -> fst r = code_at buffer 0)
  /\ (faults <> 0 -> fst r = 0xFFFF).
Proof.
  intros He.
  pose proof (told_writeCommand CMD_READ_STATUS w He) as Hw.
  destruct (writeCommand CMD_READ_STATUS w) as [written w0] eqn:Ew.
  assert (Hlen : (Z.to_nat 3 <= length [0; 0; 0])%nat) by (cbn; lia).
  pose proof (readBytes_run [0; 0; 0] 3 w0 Hlen) as E. cbv zeta in E.
  destruct (readBytes [0; 0; 0] 3 w0) as [[ok buffer] w1] eqn:Er.
  intros r faults. subst faults.
  assert (R : r = readSensorStatus w) by reflexivity. clearbody r.
  unfold readSensorStatus in R. unfold bind at 1 in R. rewrite Ew in R.
  unfold told_by_faults in Hw. cbn [fst snd] in Hw.
  destruct written; cbn [negb] in R.
  - assert (He0 : Z.land (_error_code (self w0)) FATAL_FAULTS = 0)
      by (apply Hw; reflexivity).
    unfold bind at 1 in R. rewrite Er in R.
    assert (Hb : ok = true -> Forall is_byte buffer /\ self w1 = self w0).
    { intros ->. exact (readBytes_ok _ _ _ _ _ (zeros_bytes 3) Er). }
    destruct ok; cbn [negb] in R.
    + destruct (Hb eq_refl) as [Hbytes Hs]. clear Hb.
      unfold corrupted_at. cbn [Nat.add].
      change (skipn 0 buffer) with buffer.
      destruct (Z.eqb_spec (peek buffer 2) (CRC.crc8 buffer 2)) as [Hc | Hc];
        cbn [negb] in R; subst r; run;
        cbn [fst snd self _error_code set_error_code]; rewrite Hs.
      * rewrite He0. split; [|split].
        -- split; [intros _; repeat split; intros H; now apply H
                  | reflexivity].
        -- intros _. pose proof (peek_byte buffer 0 Hbytes) as H0.
           pose proof (peek_byte buffer 1 Hbytes) as H1.
           unfold code_at, to_uint16, is_byte in *.
           rewrite Z.shiftl_mul_pow2 by lia. change (2 ^ 8) with 256.
           rewrite (Z.mod_small (peek buffer 0 * 256)) by lia.
           rewrite Z.mod_small; lia.
        -- intros H. now contradiction H.
      * rewrite (fatal_lor _ _ He0). split; [|split].
        -- split; [discriminate | intros (_ & _ & H); now contradiction H].
        -- discriminate.
        -- reflexivity.
    + subst r. unfold ret. cbn [fst snd].
      assert (Hq : (fst (Wire.requestFrom (_i2c_device_address (self w0)) 3
                           (wire w0)) =? 3) = false).
      { destruct (_ =? 3); [discriminate E | reflexivity]. }
      rewrite Hq in E. inversion E; subst.
      cbn [self _error_code set_error_code].
      rewrite (fatal_lor _ _ He0). split; [|split].
      * split; [discriminate | intros (_ & H & _); discriminate H].
      * discriminate.
      * reflexivity.
  - subst r. unfold ret. cbn [fst snd].
    assert (Hf : Z.land (_error_code (self w0)) FATAL_FAULTS <> 0).
    { intros H. apply Hw in H. discriminate H. }
    split; [|split].
    + split; [intros H; now contradiction Hf
             | intros (H & _); discriminate H].
    + intros H. now contradiction Hf.
    + reflexivity.
Qed.

End DriverMore.

(* ================================================================== *)
(** * Further properties of the conversion *)
(* ================================================================== *)

Lemma within_tolerance_bounds x exact lo hi :
  within_tolerance x exact ->
  (lo <= exact <= hi)%R ->
  is_finite x = true /\ (lo - 1 / 1000 <= SF2R x <= hi + 1 / 1000)%R.
Proof.
  intros [Hf Hx] Hr. split; [exact Hf|].
  apply ConversionFacts.Rabs_le_inv in Hx. lra.
Qed.

(** X20. The values a measurement can show: for every 16-bit code and
    for [double] in binary32 or binary64, the three conversions give a
    finite number, never an infinity or a NaN; the humidity lies
    between 0 and 100, the temperature between -45 and 130 in Celsius
    and between -49 and 266 in Fahrenheit, each within [1e-3]. *)
Theorem conversion_ranges (dbl : FP.format) (data : Z) :
  dbl = FP.binary32 \/ dbl = FP.binary64 ->
  0 <= data < 65536 ->
  (is_finite (humidity_of dbl data) = true
   /\ (0 - 1 / 1000 <= SF2R (humidity_of dbl data) <= 100 + 1 / 1000)%R)
  /\ (is_finite (celsius_of dbl data) = true
      /\ (-45 - 1 / 1000 <= SF2R (celsius_of dbl data) <= 130 + 1 / 1000)%R)
  /\ (is_finite (farenheit_of dbl data) = true
      /\ (-49 - 1 / 1000 <= SF2R (farenheit_of dbl data)
          <= 266 + 1 / 1000)%R).
Proof.
  intros Hdbl Hd.
  destruct (ConversionFacts.formulas_close dbl data Hdbl Hd)
    as (HC & HF & HH).
  assert (H0 : (0 <= IZR data)%R) by (apply IZR_le; lia).
  assert (H1 : (IZR data <= 65535)%R) by (apply IZR_le; lia).
  split; [|split].
  - apply (within_tolerance_bounds _ _ _ _ HH). lra.
  - apply (within_tolerance_bounds _ _ _ _ HC). lra.
  - apply (within_tolerance_bounds _ _ _ _ HF). lra.
Qed.

Lemma conversion_ranges_witness :
  (is_finite (humidity_of FP.binary32 0xFFFF) = true
   /\ (0 - 1 / 1000 <= SF2R (humidity_of FP.binary32 0xFFFF)
       <= 100 + 1 / 1000)%R)
  /\ (is_finite (celsius_of FP.binary32 0xFFFF) = true
      /\ (-45 - 1 / 1000 <= SF2R (celsius_of FP.binary32 0xFFFF)
          <= 130 + 1 / 1000)%R)
  /\ (is_finite (farenheit_of FP.binary32 0xFFFF) = true
      /\ (-49 - 1 / 1000 <= SF2R (farenheit_of FP.binary32 0xFFFF)
          <= 266 + 1 / 1000)%R).
Proof.
  apply (conversion_ranges FP.binary32 0xFFFF); [left; reflexivity | lia].
Defined.

(** X21. The two units agree: on the same code the Fahrenheit value is
    nine fifths of the Celsius value plus 32, within [3e-3]. *)
Theorem conversion_units_agree (dbl : FP.format) (data : Z) :
  dbl = FP.binary32 \/ dbl = FP.binary64 ->
  0 <= data < 65536 ->
  (Rabs (SF2R (farenheit_of dbl data)
         - (SF2R (celsius_of dbl data) * 9 / 5 + 32)) <= 3 / 1000)%R.
Proof.
  intros Hdbl Hd.
  destruct (ConversionFacts.formulas_close dbl data Hdbl Hd)
    as ((_ & HC) & (_ & HF) & _).
  apply ConversionFacts.Rabs_le_inv in HC. apply ConversionFacts.Rabs_le_inv in HF.
  apply Rabs_le. lra.
Qed.

Lemma conversion_units_agree_witness :
  (Rabs (SF2R (farenheit_of FP.binary64 0x6A65)
         - (SF2R (celsius_of FP.binary64 0x6A65) * 9 / 5 + 32))
   <= 3 / 1000)%R.
Proof.
  apply (conversion_units_agree FP.binary64 0x6A65);
    [right; reflexivity | lia].
Defined.

(* ================================================================== *)
(** * The further properties on the scripted bus *)
(* ================================================================== *)

(** A command of which one byte only is written is reported as sent:
    the call returns [true] and records the write-length fault. *)
Lemma writeCommand_short_write_is_not_fatal_witness :
  let w := Mock.world Mock.fresh short_writing in
  let b0 := Wire.beginTransmission (_i2c_device_address (self w)) (wire w) in
  let n := fst (Wire.write (command_bytes CMD_CLEAR_STATUS) b0) in
  let r := fst (Wire.endTransmission
                  (snd (Wire.write (command_bytes CMD_CLEAR_STATUS) b0))) in
  let e' := _error_code (self (snd (writeCommand CMD_CLEAR_STATUS w))) in
  fst (writeCommand CMD_CLEAR_STATUS w) = (r =? 0)
  /\ (n <> 2 -> has_fault e' ERROR_WRITE_LEN)
  /\ (r <> 0 -> has_fault e' ERROR_END_TRANSMISSION)
  /\ (n = 2 -> r = 0 -> e' = _error_code (self w)).
Proof.
  exact (writeCommand_short_write_is_not_fatal CMD_CLEAR_STATUS
           (Mock.world Mock.fresh short_writing)).
Defined.

Lemma writeCommand_sends_command_big_endian_witness :
  let w := Mock.world Mock.fresh (Mock.answering []) in
  exists hi lo,
    trace (snd (writeCommand CMD_SS_CSD_MEDIUM w))
    = trace w ++ [EvBeginTransmission (_i2c_device_address (self w));
                  EvWrite [hi; lo]; EvEndTransmission]
    /\ is_byte hi /\ is_byte lo /\ 256 * hi + lo = CMD_SS_CSD_MEDIUM.
Proof.
  apply (writeCommand_sends_command_big_endian CMD_SS_CSD_MEDIUM
           (Mock.world Mock.fresh (Mock.answering []))).
  unfold CMD_SS_CSD_MEDIUM. lia.
Defined.

Lemma readBytes_short_read_keeps_buffer_witness :
  let w := Mock.world Mock.fresh Mock.silent in
  let r := readBytes [0; 0; 0] 3 w in
  fst r = (false, [0; 0; 0])
  /\ trace (snd r)
     = trace w ++ [EvRequestFrom (_i2c_device_address (self w)) 3]
  /\ _error_code (self (snd r))
     = Z.lor (_error_code (self w)) ERROR_REQUEST_LEN.
Proof.
  apply (readBytes_short_read_keeps_buffer [0; 0; 0] 3
           (Mock.world Mock.fresh Mock.silent)).
  - simpl. lia.
  - vm_compute. discriminate.
Defined.

Lemma readBytes_fills_buffer_in_order_witness :
  let w := Mock.world Mock.fresh (Mock.answering [Mock.good_measurement]) in
  let b1 := snd (Wire.requestFrom (_i2c_device_address (self w)) 6
                   (wire w)) in
  let r := readBytes [0; 0; 0; 0; 0; 0] 6 w in
  fst r = (true,
           map to_uint8 (fst (bus_reads (Z.to_nat 6) b1))
           ++ skipn (Z.to_nat 6) [0; 0; 0; 0; 0; 0])
  /\ length (snd (fst r)) = length [0; 0; 0; 0; 0; 0]
  /\ trace (snd r)
     = trace w ++ EvRequestFrom (_i2c_device_address (self w)) 6
               :: repeat EvRead (Z.to_nat 6)
  /\ self (snd r) = self w.
Proof.
  apply (readBytes_fills_buffer_in_order [0; 0; 0; 0; 0; 0] 6
           (Mock.world Mock.fresh (Mock.answering [Mock.good_measurement]))).
  - simpl. lia.
  - vm_compute. reflexivity.
Defined.

Lemma operations_frame_witness :
  let w := Mock.world Mock.fresh (Mock.answering [Mock.bad_status]) in
  let w' := snd (perform FP.binary32 ReadSensorStatus w) in
  (leaves_measurement ReadSensorStatus = true -> same_measurement w w')
  /\ (leaves_configuration ReadSensorStatus = true ->
      same_configuration w w').
Proof.
  exact (operations_frame FP.binary32 ReadSensorStatus
           (Mock.world Mock.fresh (Mock.answering [Mock.bad_status]))).
Defined.

(** The soft reset on a bus that does not acknowledge the command:
    [resetSensor] returns [true] and records nothing. *)
Lemma resetSensor_drops_first_acknowledgement_witness :
  let w := Mock.world Mock.fresh nack_once in
  let a := _i2c_device_address (self w) in
  let b1 := snd (Wire.write (command_bytes CMD_SOFT_RESET)
                   (Wire.beginTransmission a (wire w))) in
  let second := fst (Wire.endTransmission (snd (Wire.endTransmission b1))) in
  let r := resetSensor CMD_SOFT_RESET w in
  fst r = (second =? 0)
  /\ trace (snd r)
     = trace w ++ [EvBeginTransmission a; EvWrite (command_bytes CMD_SOFT_RESET);
                   EvEndTransmission; EvEndTransmission]
  /\ (second = 0 ->
      Z.land (_error_code (self (snd r))) ERROR_END_TRANSMISSION
      = Z.land (_error_code (self w)) ERROR_END_TRANSMISSION).
Proof.
  apply (resetSensor_drops_first_acknowledgement CMD_SOFT_RESET
           (Mock.world Mock.fresh nack_once)).
  left. reflexivity.
Defined.


Lemma runSingleShot_delivers_converted_values_witness :
  let w := Mock.world Mock.fresh (Mock.answering [Mock.good_measurement]) in
  let r := runSingleShot FP.binary32 CMD_SS_CSD_HIGH 0%nat 1%nat w in
  let t := if _tUnit (self w)
           then celsius_of FP.binary32 (code_at Mock.good_measurement 0)
           else farenheit_of FP.binary32 (code_at Mock.good_measurement 0) in
  let h := humidity_of FP.binary32 (code_at Mock.good_measurement 3) in
  fst r = true
  /\ _temperature (self (snd r)) = t
  /\ _humidity (self (snd r)) = h
  /\ heap (snd r) 1%nat = h
  /\ (0%nat <> 1%nat -> heap (snd r) 0%nat = t)
  /\ (forall p, p <> 0%nat -> p <> 1%nat -> heap (snd r) p = heap w p)
  /\ _error_code (self (snd r))
     = _error_code (self (snd (writeCommand CMD_SS_CSD_HIGH w))).
Proof.
  intros w.
  apply (runSingleShot_delivers_converted_values FP.binary32
           CMD_SS_CSD_HIGH 0%nat 1%nat w
           (snd (writeCommand CMD_SS_CSD_HIGH w))
           (snd (readBytes [0; 0; 0; 0; 0; 0] 6
                   (snd (delay (minimum_delay CMD_SS_CSD_HIGH)
                           (snd (writeCommand CMD_SS_CSD_HIGH w))))))
           Mock.good_measurement).
  - simpl. left. reflexivity.
  - vm_compute. reflexivity.
  - vm_compute. reflexivity.
  - intros _. unfold corrupted_at. split; vm_compute; intros H; now apply H.
Defined.

(** The status read as a measurement command: rejected, and the bus is
    not used. *)
Lemma runSingleShot_uses_bus_iff_single_shot_witness :
  let w := Mock.world Mock.fresh (Mock.answering [Mock.good_measurement]) in
  let r := runSingleShot FP.binary32 CMD_READ_STATUS 0%nat 1%nat w in
  (In CMD_READ_STATUS single_shot_commands <-> trace (snd r) <> trace w)
  /\ (~ In CMD_READ_STATUS single_shot_commands ->
      r = (false,
           with_error_code
             (Z.lor (_error_code (self w)) ERROR_WRONG_COMMAND) w)).
Proof.
  exact (runSingleShot_uses_bus_iff_single_shot FP.binary32
           CMD_READ_STATUS 0%nat 1%nat
           (Mock.world Mock.fresh
              (Mock.answering [Mock.good_measurement]))).
Defined.

(** The sensor sends the status word 0xFFFF with its checksum: the
    call returns 0xFFFF and no fault is recorded. *)
Lemma readSensorStatus_sentinel_told_by_faults_witness :
  let w := Mock.world Mock.fresh (Mock.answering [status_all_ones]) in
  let r := readSensorStatus w in
  let faults := Z.land (_error_code (self (snd r))) FATAL_FAULTS in
  (faults = 0 <->
   true = true /\ true = true /\ ~ corrupted_at status_all_ones 0)
  /\ (faults = 0 -> fst r = code_at status_all_ones 0)
  /\ (faults <> 0 -> fst r = 0xFFFF).
Proof.
  exact (readSensorStatus_sentinel_told_by_faults
           (Mock.world Mock.fresh (Mock.answering [status_all_ones]))
           eq_refl).
Defined.

(** On that bus the word 0xFFFF is delivered as a status, not as a
    failure. *)
Example status_all_ones_is_delivered :
  let w := Mock.world Mock.fresh (Mock.answering [status_all_ones]) in
  fst (readSensorStatus w) = 0xFFFF
  /\ _error_code (self (snd (readSensorStatus w))) = NO_ERROR
  /\ fst (readSensorStatus (Mock.world Mock.fresh Mock.silent)) = 0xFFFF
  /\ _error_code
       (self (snd (readSensorStatus (Mock.world Mock.fresh Mock.silent))))
     = ERROR_END_TRANSMISSION.
Proof. cbv zeta. repeat split. Qed.

(** Nobody acknowledges: [clearSensorStatus] returns [true], and the
    end-of-transmission fault is in the accumulator. *)
Lemma clearSensorStatus_failure_told_by_faults_witness :
  let w := Mock.world Mock.fresh Mock.silent in
  let a := _i2c_device_address (self w) in
  let acknowledged :=
    fst (Wire.endTransmission
           (snd (Wire.write [0x30; 0x41]
                   (Wire.beginTransmission a (wire w))))) in
  let r := clearSensorStatus w in
  (acknowledged = 0
   <-> Z.land (_error_code (self (snd r))) FATAL_FAULTS = 0)
  /\ trace (snd r)
     = trace w ++ [EvBeginTransmission a; EvWrite [0x30; 0x41];
                   EvEndTransmission].
Proof.
  exact (clearSensorStatus_failure_told_by_faults
           (Mock.world Mock.fresh Mock.silent) eq_refl).
Defined.
